(** * ToastNotifications: a shallow embedding of [index.tsx]

    The plugin listens to the host's [MESSAGE_CREATE] and [RELATIONSHIP_ADD]
    events, decides whether a toast is shown and formats it.  The repository
    holds two revisions of the plugin: the current one (modelled at top level)
    and an older one (modelled in [Module Legacy]).

    Conventions of the embedding:
    - a JavaScript string is the list of its UTF-16 code units ([list N]);
    - [undefined]/[null] are [None];
    - an exception is [Throw] in the [result] monad;
    - the host's stores are fields of the record [Host];
    - a handler returns [Ok (Some n)] when it calls [showNotification n],
      [Ok None] when it returns without doing so. *)

From stdpp Require Import base option list gmap strings.
From Stdlib Require Import Ascii NArith ZArith Lia.

(* ================================================================== *)
(** * JavaScript strings *)
(* ================================================================== *)

Abbreviation jsstring := (list N).

(** A literal of the source; only ASCII literals occur. *)
Definition str (s : string) : jsstring :=
  map Ascii.N_of_ascii (String.list_ascii_of_string s).

Definition chr (a : ascii) : N := Ascii.N_of_ascii a.

Arguments str : simpl never.
Arguments chr : simpl never.

(** [\d] *)
Definition isDigit (c : N) : bool := ((48 <=? c) && (c <=? 57))%N.

(** [\w], that is [A-Za-z0-9_] *)
Definition isWord (c : N) : bool :=
  (isDigit c
   || ((65 <=? c) && (c <=? 90))
   || ((97 <=? c) && (c <=? 122))
   || (c =? 95))%N.

(** [\s] and the characters removed by [trim]: WhiteSpace and
    LineTerminator of ECMAScript. *)
Definition isSpace (c : N) : bool :=
  (((9 <=? c) && (c <=? 13))
   || (c =? 32) || (c =? 160) || (c =? 5760)
   || ((8192 <=? c) && (c <=? 8202))
   || (c =? 8232) || (c =? 8233) || (c =? 8239) || (c =? 8287)
   || (c =? 12288) || (c =? 65279))%N.

Definition is_char (a : ascii) (c : N) : bool := (c =? chr a)%N.

(** [s.substring(a, b)] for non-negative integers. *)
Definition substring (s : jsstring) (a b : nat) : jsstring :=
  let a' := a `min` length s in
  let b' := b `min` length s in
  take ((a' `max` b') - (a' `min` b')) (drop (a' `min` b') s).

Arguments substring : simpl never.

(** [s.slice(a, b)] and [s.slice(a)] for non-negative integers. *)
Definition slice (s : jsstring) (a b : nat) : jsstring :=
  let a' := a `min` length s in
  let b' := b `min` length s in
  take (b' - a') (drop a' s).

Definition slice_from (s : jsstring) (a : nat) : jsstring := drop a s.

Fixpoint startsWith (s p : jsstring) : bool :=
  match p, s with
  | [], _ => true
  | _ :: _, [] => false
  | x :: p', y :: s' => (x =? y)%N && startsWith s' p'
  end.

(** [s.includes(p)] *)
Fixpoint includes (s p : jsstring) : bool :=
  startsWith s p ||
  match s with
  | [] => false
  | _ :: s' => includes s' p
  end.

(** [s.split(sep)] for a one-character separator. *)
Fixpoint split_on (sep : N) (s : jsstring) : list jsstring :=
  match s with
  | [] => [[]]
  | c :: s' =>
      if (c =? sep)%N then [] :: split_on sep s'
      else match split_on sep s' with
           | p :: ps => (c :: p) :: ps
           | [] => [[c]]
           end
  end.

(** [l.join(sep)] *)
Fixpoint join (sep : jsstring) (l : list jsstring) : jsstring :=
  match l with
  | [] => []
  | [x] => x
  | x :: l' => x ++ sep ++ join sep l'
  end.

Fixpoint trimStart (s : jsstring) : jsstring :=
  match s with
  | c :: s' => if isSpace c then trimStart s' else s
  | [] => []
  end.

(** [s.trim()] *)
Definition trim (s : jsstring) : jsstring :=
  reverse (trimStart (reverse (trimStart s))).

(** A value interpolated in a template literal: [undefined] prints as the
    word. *)
Definition tmpl (o : option jsstring) : jsstring :=
  default (str "undefined") o.

(** Truthiness of a possibly absent string. *)
Definition truthy (o : option jsstring) : bool :=
  match o with
  | Some (_ :: _) => true
  | _ => false
  end.

(** [a || b] on strings *)
Definition or_else (a : option jsstring) (b : jsstring) : jsstring :=
  match a with
  | Some (c :: s) => c :: s
  | _ => b
  end.

(* ================================================================== *)
(** * Exceptions *)
(* ================================================================== *)

Inductive result (A : Type) : Type :=
| Ok (a : A)
| Throw.
Arguments Ok {A} a.
Arguments Throw {A}.

#[global] Instance result_ret : MRet result := fun _ a => Ok a.
#[global] Instance result_bind : MBind result := fun _ _ f m =>
  match m with
  | Ok a => f a
  | Throw => Throw
  end.

#[global] Instance result_fmap : FMap result := fun _ _ f m =>
  match m with
  | Ok a => Ok (f a)
  | Throw => Throw
  end.

(** Dereferencing a possibly [undefined] value. *)
Definition deref {A} (o : option A) : result A :=
  match o with
  | Some a => Ok a
  | None => Throw
  end.

(** A call of an [async] function that is not awaited.  The caller goes on
    and returns; an exception of the callee rejects a promise nobody waits
    for, so the caller does not see it.  A toast the callee shows is
    shown. *)
Definition not_awaited {A} (r : result (option A)) : result (option A) :=
  match r with
  | Ok shown => Ok shown
  | Throw => Ok None
  end.

(* ================================================================== *)
(** * Regular expressions

    The regular expressions of the source are alternatives of sequences of
    quantified character classes.  Matching is the backtracking matching of
    ECMAScript: a quantifier takes as many characters as it can and gives
    them back one at a time; alternatives are tried left to right. *)
(* ================================================================== *)

Record atom := Atom {
  a_cls : N → bool;
  a_min : nat;
  a_max : option nat
}.

Definition lit (a : ascii) : atom := Atom (is_char a) 1 (Some 1).
Definition opt (a : ascii) : atom := Atom (is_char a) 0 (Some 1).
Definition plus (cls : N → bool) : atom := Atom cls 1 None.
Definition rep (cls : N → bool) (lo hi : nat) : atom := Atom cls lo (Some hi).

(** How many characters the quantifier can take at the start of [s]. *)
Fixpoint run (cls : N → bool) (cap : option nat) (s : jsstring) : nat :=
  match s with
  | c :: s' =>
      if cls c then
        match cap with
        | Some 0 => 0
        | Some (S k) => S (run cls (Some k) s')
        | None => S (run cls None s')
        end
      else 0
  | [] => 0
  end.

(** Try [k], [k-1], ... down to [lo] characters. *)
Fixpoint backtrack (cont : nat → option (list nat)) (lo k : nat)
  : option (list nat) :=
  if k <? lo then None
  else match cont k with
       | Some r => Some (k :: r)
       | None =>
           match k with
           | 0 => None
           | S k' => backtrack cont lo k'
           end
       end.

(** The number of characters each atom consumed. *)
Fixpoint match_seq (atoms : list atom) (s : jsstring) : option (list nat) :=
  match atoms with
  | [] => Some []
  | a :: rest =>
      backtrack (fun k => match_seq rest (drop k s))
                (a_min a) (run (a_cls a) (a_max a) s)
  end.

(** An alternative and the atoms its capture group encloses: the first of
    them and how many. *)
Record alt := Alt {
  alt_atoms : list atom;
  alt_group : nat * nat
}.

Abbreviation regex := (list alt).

(** A match at the start of a suffix: which alternative, its length, and
    the text of its capture group. *)
Record rmatch := RMatch {
  m_alt : nat;
  m_len : nat;
  m_group : jsstring
}.

Definition alt_match (i : nat) (a : alt) (s : jsstring) : option rmatch :=
  counts ← match_seq (alt_atoms a) s;
  Some (RMatch i (sum_list counts)
          (take (sum_list (take (alt_group a).2 (drop (alt_group a).1 counts)))
                (drop (sum_list (take (alt_group a).1 counts)) s))).

Fixpoint exec_from (i : nat) (re : regex) (s : jsstring) : option rmatch :=
  match re with
  | [] => None
  | a :: re' =>
      match alt_match i a s with
      | Some m => Some m
      | None => exec_from (S i) re' s
      end
  end.

Definition exec_at (re : regex) (s : jsstring) : option rmatch :=
  exec_from 0 re s.

(** All matches of a global regular expression, left to right, with their
    offsets.  [skip] counts the characters of the previous match that are
    still to be passed over; after an empty match the search resumes one
    character further. *)
Fixpoint scan (re : regex) (s : jsstring) (off skip : nat)
  : list (nat * rmatch) :=
  match s with
  | [] =>
      match skip, exec_at re [] with
      | 0, Some m => [(off, m)]
      | _, _ => []
      end
  | _ :: s' =>
      match skip with
      | S k => scan re s' (S off) k
      | 0 =>
          match exec_at re s with
          | Some m => (off, m) :: scan re s' (S off) (m_len m - 1)
          | None => scan re s' (S off) 0
          end
      end
  end.

(** [s.replace(re, f)] for a global [re] and a callback [f] on the matched
    text. *)
Fixpoint replace_go (re : regex) (f : jsstring → jsstring)
    (s : jsstring) (skip : nat) : jsstring :=
  match s with
  | [] =>
      match skip, exec_at re [] with
      | 0, Some _ => f []
      | _, _ => []
      end
  | c :: s' =>
      match skip with
      | S k => replace_go re f s' k
      | 0 =>
          match exec_at re s with
          | Some m =>
              f (take (m_len m) s) ++
              match m_len m with
              | 0 => c :: replace_go re f s' 0
              | S l => replace_go re f s' l
              end
          | None => c :: replace_go re f s' 0
          end
      end
  end.

Definition replace_all (re : regex) (f : jsstring → jsstring) (s : jsstring)
  : jsstring :=
  replace_go re f s 0.

(** [/<@!?(\d{17,20})>|<#(\d{17,20})>|<@&(\d{17,20})>/g] *)
Definition USER_MENTION_REGEX : regex :=
  [ Alt [lit "<"; lit "@"; opt "!"; rep isDigit 17 20; lit ">"] (3, 1);
    Alt [lit "<"; lit "#"; rep isDigit 17 20; lit ">"] (2, 1);
    Alt [lit "<"; lit "@"; lit "&"; rep isDigit 17 20; lit ">"] (3, 1) ].

(** [/(<a?:\w+:\d+>)/g] *)
Definition EMOTE_REGEX : regex :=
  [ Alt [lit "<"; opt "a"; lit ":"; plus isWord; lit ":"; plus isDigit;
         lit ">"] (0, 7) ].

(** [a === b] on strings and [l.includes(x)] on arrays of strings *)
Fixpoint str_eqb (a b : jsstring) : bool :=
  match a, b with
  | [], [] => true
  | x :: a', y :: b' => (x =? y)%N && str_eqb a' b'
  | _, _ => false
  end.

Fixpoint array_includes (l : list jsstring) (x : jsstring) : bool :=
  match l with
  | [] => false
  | y :: l' => str_eqb y x || array_includes l' x
  end.

(* ================================================================== *)
(** * The host's data *)
(* ================================================================== *)

Record User := {
  user_id : jsstring;
  username : jsstring;
  avatar : option jsstring
}.

Record Channel := {
  channel_id : jsstring;
  guild_id : option jsstring;
  channel_name : option jsstring;
  rawRecipients : option (list User);
  isDM : bool;
  isGroupDM : bool
}.

Record Attachment := {
  content_type : option jsstring;
  filename : jsstring;
  url : jsstring
}.

(** Modelled from the spec: the table [MessageTypes] of [./types] is not
    among the sources; the code only compares [message.type] with six of
    its entries, which the spec names (call-started, member-added,
    member-removed, channel-name-changed, channel-icon-changed,
    channel-pinned-message). *)
Inductive MessageType :=
| CALL
| CHANNEL_RECIPIENT_ADD
| CHANNEL_RECIPIENT_REMOVE
| CHANNEL_NAME_CHANGE
| CHANNEL_ICON_CHANGE
| CHANNEL_PINNED_MESSAGE
| OTHER_MESSAGE_TYPE.

(** Modelled from the spec: the table [RelationshipType] of
    [plugins/relationshipNotifier/types] is not among the sources; the spec
    has the relationship type in {friend, incoming-request, other}. *)
Inductive RelationshipType :=
| FRIEND
| INCOMING_REQUEST
| OTHER_RELATIONSHIP.

(** An entry of [message.mentions]: the current revision reads it as a
    string, the older one as an object with an [id]. *)
Inductive Mention :=
| MentionId (s : jsstring)
| MentionUser (u : User).

Record Message := {
  author : User;
  content : jsstring;
  msg_type : MessageType;
  mentions : list Mention;
  mentionRoles : list jsstring;
  embeds : list unit;
  stickerItems : option (list unit);
  attachments : list Attachment;
  msg_channel_id : jsstring
}.

Record Role := { role_name : option jsstring }.

Record Guild := { getRole : jsstring → option Role }.

(** An entry of [channel_overrides]; [None] when it has no key
    [message_notifications]. *)
Record ChannelOverride := { co_message_notifications : option Z }.

(** [message_notifications] is [None] when it is not a number. *)
Record GuildSettings := {
  channel_overrides : option (gmap (list N) ChannelOverride);
  message_notifications : option Z
}.

(** The stores and services of the host application. *)
Record Host := {
  getChannel : jsstring → option Channel;        (* ChannelStore *)
  hasChannel : jsstring → bool;                  (* ChannelStore *)
  getUser : jsstring → option User;              (* UserStore *)
  getCurrentUser : User;                         (* UserStore *)
  getGuild : jsstring → option Guild;            (* GuildStore *)
  getNickname : jsstring → option jsstring;      (* RelationshipStore *)
  isFriend : jsstring → bool;                    (* RelationshipStore *)
  UserUtils_getName : User → jsstring;
  getChannelId : option jsstring;                (* SelectedChannelStore *)
  isChannelMuted : jsstring → bool;              (* MuteStore, guild null *)
  isGuildOrCategoryOrChannelMuted : option jsstring → jsstring → bool;
  allowAllMessages : Channel → bool;             (* MuteStore *)
  User_getAvatarURL : User → jsstring;           (* user.getAvatarURL() *)
  activeStreams : option nat;     (* ApplicationStreamingStore, the length *)
  streamerModeEnabled : bool;                    (* StreamerModeStore *)
  userGuildSettings : gmap (list N) GuildSettings (* UserGuildSettingsStore *)
}.

Inductive StreamingTreatment := NORMAL | NO_CONTENT | IGNORE.

#[global] Instance StreamingTreatment_eq_dec : EqDecision StreamingTreatment.
Proof. solve_decision. Defined.

(** [settings.store] *)
Record Settings := {
  determineServerNotifications : bool;
  disableInStreamerMode : bool;
  renderImages : bool;
  directMessages : bool;
  groupMessages : bool;
  friendServerNotifications : bool;
  friendActivity : bool;
  streamingTreatment : StreamingTreatment;
  s_notifyFor : jsstring;
  s_ignoreUsers : jsstring;
  disableMessageBody : bool
}.

(** The two module variables. *)
Record State := {
  ignoredUsers : list jsstring;
  notifyFor : list jsstring
}.

(** What a click handler does. *)
Inductive ClickAction :=
| SelectPrivateChannel (channelId : jsstring)
| SwitchChannels (guildId : option jsstring) (channelId : jsstring).

(** A node of the rich body: a string or a mention [span]. *)
Inductive RichElement :=
| Text (s : jsstring)
| Span (key : jsstring) (name : option jsstring).

Record NotificationData := {
  title : jsstring;
  icon : jsstring;
  body : jsstring;
  richBody : option (list RichElement);
  image : option jsstring;
  n_attachments : nat;
  permanent : option bool;
  onClick : option ClickAction
}.

(* ================================================================== *)
(** * The current revision *)
(* ================================================================== *)

Definition stringToList (s : jsstring) : list jsstring :=
  match s with
  | [] => []
  | _ => split_on (chr ",") (filter (λ c, isSpace c = false) s)
  end.

Definition start (cfg : Settings) : State :=
  {| ignoredUsers := stringToList (s_ignoreUsers cfg);
     notifyFor := stringToList (s_notifyFor cfg) |}.

Definition ELLIPSIS : jsstring := str "...".

Definition limitMessageLength (body : jsstring) (hasAttachments : bool)
  : jsstring :=
  if hasAttachments && (30 <? length body) then substring body 0 27 ++ ELLIPSIS
  else if 165 <? length body then substring body 0 162 ++ ELLIPSIS
  else body.

Definition getName (h : Host) (user : User) : jsstring :=
  default (UserUtils_getName h user) (getNickname h (user_id user)).

Definition getAvatarURL (user : User) : jsstring :=
  str "https://cdn.discordapp.com/avatars/" ++ user_id user ++ str "/"
  ++ default (str "null") (avatar user) ++ str ".png?size=128".

Inductive MentionKind := KUser | KChannel | KRole.

Definition kind_name (k : MentionKind) : jsstring :=
  match k with
  | KUser => str "user"
  | KChannel => str "channel"
  | KRole => str "role"
  end.

Definition addMention (h : Host) (id : jsstring) (type : MentionKind)
    (guildId : option jsstring) : result RichElement :=
  name ← match type with
         | KUser =>
             Ok (Some (str "@" ++
                       or_else (username <$> getUser h id)
                               (str "unknown-user")))
         | KChannel =>
             Ok (Some (str "#" ++
                       or_else (getChannel h id ≫= channel_name)
                               (str "unknown-channel")))
         | KRole =>
             match guildId with
             | Some (c :: g) =>
                 guild ← deref (getGuild h (c :: g));
                 Ok (Some (str "@" ++
                           or_else (getRole guild id ≫= role_name)
                                   (str "unknown-role")))
             | _ => Ok None
             end
         end;
  Ok (Span (kind_name type ++ str "-" ++ id) name).

(** The capture group of the [i]-th alternative; [undefined] when another
    alternative matched. *)
Definition group (m : rmatch) (i : nat) : option jsstring :=
  if m_alt m =? i then Some (m_group m) else None.

(** The mention element the callback of [parseMentions] pushes for a
    match. *)
Definition mention_for (h : Host) (channel : Channel) (m : rmatch)
  : result (option RichElement) :=
  let userId := group m 0 in
  let channelId := group m 1 in
  let roleId := group m 2 in
  if truthy userId then
    Some <$> addMention h (tmpl userId) KUser None
  else if truthy channelId then
    Some <$> addMention h (tmpl channelId) KChannel None
  else if truthy roleId then
    Some <$> addMention h (tmpl roleId) KRole (guild_id channel)
  else Ok None.

(** The callback of [parseMentions], run on the matches in order. *)
Fixpoint mention_loop (h : Host) (body : jsstring) (channel : Channel)
    (ms : list (nat * rmatch)) (elements : list RichElement)
    (lastIndex : nat) : result (list RichElement * nat) :=
  match ms with
  | [] => Ok (elements, lastIndex)
  | (offset, m) :: ms' =>
      let elements := elements ++ [Text (slice body lastIndex offset)] in
      mention ← mention_for h channel m;
      let elements := elements ++ option_list mention in
      mention_loop h body channel ms' elements (offset + m_len m)
  end.

Definition parseMentions (h : Host) (body : jsstring) (channel : Channel)
  : result (list RichElement) :=
  '(elements, lastIndex) ←
    mention_loop h body channel (scan USER_MENTION_REGEX body 0 0) [] 0;
  Ok (if lastIndex <? length body
      then elements ++ [Text (slice_from body lastIndex)]
      else elements).

Definition formatEmotes (body : jsstring) : jsstring :=
  replace_all EMOTE_REGEX
    (λ m, str ":" ++ tmpl (split_on (chr ":") m !! 1) ++ str ":") body.

Definition truncate_name (channelName : option jsstring) : option jsstring :=
  match channelName with
  | Some n => Some (if 20 <? length n then substring n 0 20 ++ ELLIPSIS else n)
  | None => None
  end.

Definition getNotificationTitle (h : Host) (message : Message)
    (channel : Channel) : jsstring :=
  if isGroupDM channel then
    let channelName :=
      match trim <$> channel_name channel with
      | Some (c :: n) => Some (c :: n)
      | _ =>
          (λ rs, join (str ", ") (username <$> take 3 rs))
            <$> rawRecipients channel
      end in
    let channelName := truncate_name channelName in
    username (author message) ++ str " (" ++ tmpl channelName ++ str ")"
  else if truthy (guild_id channel) then
    getName h (author message) ++ str " (#"
    ++ tmpl (channel_name channel) ++ str ")"
  else getName h (author message).

(** [UserStore.getUser(id)] where [id] may be [undefined]; the store has no
    user under that key. *)
Definition getUser_opt (h : Host) (id : option jsstring) : option User :=
  id ≫= getUser h.

(** [message.mentions[0]?.replace(/[<@!>]/g, "")]; an entry that is not a
    string has no [replace]. *)
Definition first_mention_id (message : Message) : result (option jsstring) :=
  match mentions message with
  | [] => Ok None
  | MentionId s :: _ =>
      Ok (Some (filter (λ c, (is_char "<" c || is_char "@" c
                              || is_char "!" c || is_char ">" c) = false) s))
  | MentionUser _ :: _ => Throw
  end.

Definition is_image (e : Attachment) : bool :=
  match content_type e with
  | Some t => startsWith t (str "image")
  | None => false
  end.

Definition images_of (message : Message) : list Attachment :=
  filter (λ e, is_image e = true) (attachments message).

Definition getNotificationBody (h : Host) (message : Message)
    (channel : Channel) : result jsstring :=
  match msg_type message with
  | CALL => Ok (str "Started a call with you!")
  | CHANNEL_RECIPIENT_ADD =>
      let actor := getUser h (user_id (author message)) in
      userId ← first_mention_id message;
      let targetUser := getUser_opt h userId in
      targetUser ← deref targetUser;
      actor ← deref actor;
      Ok (getName h targetUser ++ str " was added to the group by "
          ++ getName h actor ++ str ".")
  | CHANNEL_RECIPIENT_REMOVE =>
      let actor := getUser h (user_id (author message)) in
      userId ← first_mention_id message;
      let targetUser := getUser_opt h userId in
      actor ← deref actor;
      targetUser ← deref targetUser;
      Ok (if negb (str_eqb (user_id actor) (user_id targetUser))
          then getName h targetUser ++ str " was removed from the group by "
               ++ getName h actor ++ str "."
          else str "Left the group.")
  | CHANNEL_NAME_CHANGE =>
      Ok (str "Changed the channel name to '" ++ content message
          ++ str "'.")
  | CHANNEL_ICON_CHANGE => Ok (str "Changed the channel icon.")
  | CHANNEL_PINNED_MESSAGE => Ok (str "Pinned a message.")
  | OTHER_MESSAGE_TYPE =>
      if 0 <? length (embeds message) then
        Ok (or_else (Some (content message)) (str "Sent an embed."))
      else if bool_decide (is_Some (stickerItems message)) then
        Ok (or_else (Some (content message)) (str "Sent a sticker."))
      else
        match attachments message with
        | first :: _ =>
            if 0 <? length (images_of message) then
              Ok (or_else (Some (content message)) [])
            else
              Ok (or_else (Some (content message)) []
                  ++ str " [Attachment: " ++ filename first ++ str "]")
        | [] => Ok (content message)
        end
  end.

Definition REDACTED : jsstring := str "Message content has been redacted.".

Definition buildNotificationData (h : Host) (message : Message)
    (channel : Channel) (handler : ClickAction) : result NotificationData :=
  text ← getNotificationBody h message channel;
  let text := formatEmotes text in
  richBodyElements ←
    (if (0 <? length (mentions message))
        || (0 <? length (mentionRoles message))
     then Some <$> parseMentions h text channel
     else Ok None);
  let notification :=
    {| title := getNotificationTitle h message channel;
       icon := getAvatarURL (author message);
       body := limitMessageLength text (0 <? length (attachments message));
       n_attachments := length (attachments message);
       richBody :=
         match richBodyElements with
         | Some (e :: es) => Some (e :: es)
         | _ => None
         end;
       image := None;
       permanent := Some false;
       onClick := Some handler |} in
  Ok match images_of message with
     | img :: _ =>
         {| title := title notification; icon := icon notification;
            body := body notification; richBody := richBody notification;
            image := Some (url img);
            n_attachments := n_attachments notification;
            permanent := permanent notification;
            onClick := onClick notification |}
     | [] => notification
     end.

(** The redaction applied by both message paths. *)
Definition redact (n : NotificationData) : NotificationData :=
  {| title := title n; icon := icon n;
     body := REDACTED; richBody := None;
     image := image n; n_attachments := n_attachments n;
     permanent := permanent n; onClick := onClick n |}.

Definition isStreaming (h : Host) : bool :=
  match activeStreams h with
  | Some n => 1 <=? n
  | None => false
  end.

Definition redaction_on (h : Host) (cfg : Settings) : bool :=
  (isStreaming h && bool_decide (streamingTreatment cfg = NO_CONTENT))
  || disableMessageBody cfg.

Definition ALL_MESSAGES : Z := 0.
Definition ONLY_MENTIONS : Z := 1.
Definition NO_MESSAGES : Z := 2.

Definition findNotificationLevel (h : Host) (cfg : Settings)
    (channel : Channel) : Z :=
  let userGuildSettings := userGuildSettings h !! tmpl (guild_id channel) in
  if negb (determineServerNotifications cfg)
     || isGuildOrCategoryOrChannelMuted h (guild_id channel)
                                        (channel_id channel)
  then NO_MESSAGES
  else
    match userGuildSettings with
    | Some ugs =>
        let channelOverrides :=
          channel_overrides ugs ≫= (.!! channel_id channel) in
        let guildDefault := message_notifications ugs in
        match channelOverrides ≫= co_message_notifications with
        | Some level => level
        | None =>
            match guildDefault with
            | Some level => level
            | None => NO_MESSAGES
            end
        end
    | None => NO_MESSAGES
    end.

Definition handleGuildMessage (h : Host) (cfg : Settings) (st : State)
    (message : Message) : result (option NotificationData) :=
  let channel := getChannel h (msg_channel_id message) in
  channel ← deref channel;
  let notificationLevel := findNotificationLevel h cfg channel in
  let all := array_includes (notifyFor st) (msg_channel_id message) in
  let friend :=
    friendServerNotifications cfg && isFriend h (user_id (author message)) in
  let isMention :=
    includes (content message)
             (str "<@" ++ user_id (getCurrentUser h) ++ str ">") in
  let meetsMentionCriteria :=
    negb (notificationLevel =? ALL_MESSAGES)%Z && negb isMention in
  if negb all && negb friend
     && ((notificationLevel =? NO_MESSAGES)%Z || meetsMentionCriteria)
  then Ok None
  else
    notification ←
      buildNotificationData h message channel
        (SwitchChannels (guild_id channel) (channel_id channel));
    Ok (Some (if redaction_on h cfg then redact notification
              else notification)).

Definition MESSAGE_CREATE (h : Host) (cfg : Settings) (st : State)
    (message : Message) : result (option NotificationData) :=
  let channel := getChannel h (msg_channel_id message) in
  let currentUser := getCurrentUser h in
  let streamerMode := disableInStreamerMode cfg in
  let currentUserStreamerMode := streamerModeEnabled h in
  if (streamerMode && currentUserStreamerMode)
     || (isStreaming h && bool_decide (streamingTreatment cfg = IGNORE))
     || str_eqb (user_id (author message)) (user_id currentUser)
  then Ok None
  else
    channel ← deref channel;
    if match getChannelId h with
       | Some sel => str_eqb (channel_id channel) sel
       | None => false
       end
       || array_includes (ignoredUsers st) (user_id (author message))
    then Ok None
    else if truthy (guild_id channel) then handleGuildMessage h cfg st message
    else if (negb (directMessages cfg) && isDM channel)
            || (negb (groupMessages cfg) && isGroupDM channel)
            || isChannelMuted h (channel_id channel)
    then Ok None
    else
      notification ←
        buildNotificationData h message channel
          (SelectPrivateChannel (msg_channel_id message));
      Ok (Some (if redaction_on h cfg then redact notification
                else notification)).

Definition relationshipAdd (h : Host) (cfg : Settings) (user : User)
    (type : RelationshipType) : result (option NotificationData) :=
  if negb (friendActivity cfg) then Ok None
  else
    let user := getUser h (user_id user) in
    user ← deref user;
    let notification (t b : jsstring) (c : ClickAction) :=
      {| title := t; icon := getAvatarURL user; body := b;
         richBody := None; image := None; n_attachments := 0;
         permanent := None; onClick := Some c |} in
    match type with
    | FRIEND =>
        Ok (Some (notification
                    (username user ++ str " is now your friend")
                    (str "You can now message them directly.")
                    (SwitchChannels None (user_id user))))
    | INCOMING_REQUEST =>
        Ok (Some (notification
                    (username user ++ str " sent you a friend request")
                    (str "You can accept or decline it in the Friends tab.")
                    (SwitchChannels None [])))
    | OTHER_RELATIONSHIP => Ok None
    end.

(** The handler calls [relationshipAdd] without awaiting it. *)
Definition RELATIONSHIP_ADD (h : Host) (cfg : Settings) (st : State)
    (user : User) (type : RelationshipType)
  : result (option NotificationData) :=
  if array_includes (ignoredUsers st) (user_id user) then Ok None
  else not_awaited (relationshipAdd h cfg user type).

(** What the host is asked to do when a toast is clicked. *)
Inductive HostCall :=
| selectPrivateChannel (channelId : jsstring)
| transitionTo (route : jsstring).

Definition switchChannels (h : Host) (guildId : option jsstring)
    (channelId : jsstring) : list HostCall :=
  if negb (hasChannel h channelId) then []
  else [transitionTo (str "/channels/" ++ default (str "@me") guildId
                      ++ str "/" ++ channelId ++ str "/")].

Definition click (h : Host) (c : ClickAction) : list HostCall :=
  match c with
  | SelectPrivateChannel channelId => [selectPrivateChannel channelId]
  | SwitchChannels guildId channelId => switchChannels h guildId channelId
  end.

(* ================================================================== *)
(** * The older revision

    [stringToList], [limitMessageLength], [getName], [addMention] and
    [switchChannels] of the older revision compute what their namesakes
    above compute; the event handlers differ and are modelled here. *)
(* ================================================================== *)

Module Legacy.

(** [new RegExp(m, "g")] for a text [m] without special characters. *)
Definition literal (m : jsstring) : regex :=
  [ Alt ((λ c, Atom (N.eqb c) 1 (Some 1)) <$> m) (0, 0) ].

(** [body.match(re)] for a global [re]: the matched texts; the empty list
    stands for [null]. *)
Definition match_all (re : regex) (s : jsstring) : list jsstring :=
  (λ om, take (m_len om.2) (drop om.1 s)) <$> scan re s 0 0.

(** The loop that replaces the emotes, one matched text after the other. *)
Definition replaceEmotes (body : jsstring) : jsstring :=
  foldl (λ body m,
           replace_all (literal m)
             (λ _, str ":" ++ tmpl (split_on (chr ":") m !! 1) ++ str ":")
             body)
        body (match_all EMOTE_REGEX body).

(** The inline mention replacement; nothing is pushed after the last
    match. *)
Definition replaceMentions (h : Host) (message : Message) (body : jsstring)
    (channel : Channel) : result (list RichElement) :=
  if (0 <? length (mentions message)) || (0 <? length (mentionRoles message))
  then fst <$> mention_loop h body channel
                 (scan USER_MENTION_REGEX body 0 0) [] 0
  else Ok [].

(** [message.content.length > 0 ? message.content : false] followed by
    [notificationText || fallback]. *)
Definition text_or (message : Message) (fallback : jsstring) : jsstring :=
  if 0 <? length (content message) then content message else fallback.

(** The embed, sticker and attachment blocks; returns the body and the
    image. *)
Definition mediaBody (message : Message) (body : jsstring)
  : jsstring * option jsstring :=
  let body :=
    if negb (length (embeds message) =? 0)
    then text_or message (str "Sent an embed.") else body in
  let body :=
    if bool_decide (is_Some (stickerItems message))
    then text_or message (str "Sent a sticker.") else body in
  match attachments message with
  | first :: _ =>
      match images_of message with
      | img :: _ => (text_or message [], Some (url img))
      | [] => (body ++ str " [Attachment: " ++ filename first ++ str "]",
               None)
      end
  | [] => (body, None)
  end.

(** [message.mentions[0]?.id] *)
Definition first_mention_id (message : Message) : option jsstring :=
  match mentions message with
  | MentionUser u :: _ => Some (user_id u)
  | _ => None
  end.

Definition typeBody (h : Host) (message : Message) : result jsstring :=
  match msg_type message with
  | CALL => Ok (str "Started a call with you!")
  | CHANNEL_RECIPIENT_ADD =>
      let actor := getUser h (user_id (author message)) in
      let targetUser := getUser_opt h (first_mention_id message) in
      targetUser ← deref targetUser;
      actor ← deref actor;
      Ok (getName h targetUser ++ str " was added to the group by "
          ++ getName h actor ++ str ".")
  | CHANNEL_RECIPIENT_REMOVE =>
      let actor := getUser h (user_id (author message)) in
      let targetUser := getUser_opt h (first_mention_id message) in
      actor ← deref actor;
      targetUser ← deref targetUser;
      Ok (if negb (str_eqb (user_id actor) (user_id targetUser))
          then getName h targetUser ++ str " was removed from the group by "
               ++ getName h actor ++ str "."
          else str "Left the group.")
  | CHANNEL_NAME_CHANGE =>
      Ok (str "Changed the channel name to '" ++ content message
          ++ str "'.")
  | CHANNEL_ICON_CHANGE => Ok (str "Changed the channel icon.")
  | CHANNEL_PINNED_MESSAGE => Ok (str "Pinned a message.")
  | OTHER_MESSAGE_TYPE => Ok (content message)
  end.

Definition avatarURL (u : User) : jsstring :=
  str "https://cdn.discordapp.com/avatars/" ++ user_id u ++ str "/"
  ++ default (str "null") (avatar u) ++ str ".png?size=128".

(** The part shared by the two message paths, from the embed block to the
    call of [showNotification]. *)
Definition finish (h : Host) (message : Message) (channel : Channel)
    (title0 body0 : jsstring) (handler : ClickAction)
  : result (option NotificationData) :=
  let '(text, img) := mediaBody message body0 in
  let text := replaceEmotes text in
  richBodyElements ← replaceMentions h message text channel;
  Ok (Some {| title := title0;
              icon := avatarURL (author message);
              body := limitMessageLength text
                        (0 <? length (attachments message));
              richBody :=
                if 0 <? length richBodyElements then Some richBodyElements
                else None;
              image := img;
              n_attachments := length (attachments message);
              permanent := Some false;
              onClick := Some handler |}).

Definition handleGuildMessage (h : Host) (cfg : Settings) (st : State)
    (message : Message) : result (option NotificationData) :=
  let all := array_includes (notifyFor st) (msg_channel_id message) in
  let friend :=
    friendServerNotifications cfg && isFriend h (user_id (author message)) in
  if negb (all || friend) then Ok None
  else
    channel ← deref (getChannel h (msg_channel_id message));
    finish h message channel
      (getName h (author message) ++ str " (#"
       ++ tmpl (channel_name channel) ++ str ")")
      (content message)
      (SwitchChannels (guild_id channel) (channel_id channel)).

Definition groupTitle (message : Message) (channel : Channel)
  : result jsstring :=
  channelName ←
    match trim <$> channel_name channel with
    | Some (c :: n) => Ok (c :: n)
    | _ =>
        rs ← deref (rawRecipients channel);
        Ok (join (str ", ") (username <$> take 3 rs))
    end;
  let truncatedChannelName :=
    if 20 <? length channelName
    then substring channelName 0 20 ++ ELLIPSIS else channelName in
  Ok (username (author message) ++ str " (" ++ truncatedChannelName
      ++ str ")").

(** The older handler calls [handleGuildMessage] without awaiting it. *)
Definition MESSAGE_CREATE (h : Host) (cfg : Settings) (st : State)
    (message : Message) : result (option NotificationData) :=
  let channel := getChannel h (msg_channel_id message) in
  let currentUser := getCurrentUser h in
  let streamerMode := disableInStreamerMode cfg in
  let currentUserStreamerMode := streamerModeEnabled h in
  if streamerMode && currentUserStreamerMode then Ok None
  else
    channel ← deref channel;
    if truthy (guild_id channel) then
      if negb (array_includes (ignoredUsers st) (user_id (author message)))
      then not_awaited (handleGuildMessage h cfg st message)
      else Ok None
    else if str_eqb (user_id (author message)) (user_id currentUser)
            || negb (allowAllMessages h channel)
            || match getChannelId h with
               | Some sel => str_eqb (channel_id channel) sel
               | None => false
               end
            || array_includes (ignoredUsers st) (user_id (author message))
            || (negb (directMessages cfg) && isDM channel)
            || (negb (groupMessages cfg) && isGroupDM channel)
    then Ok None
    else
      title0 ←
        (if isGroupDM channel then groupTitle message channel
         else Ok (getName h (author message)));
      body0 ← typeBody h message;
      finish h message channel title0 body0
        (SelectPrivateChannel (msg_channel_id message)).

Definition relationshipAdd (h : Host) (cfg : Settings) (user : User)
    (type : RelationshipType) : result (option NotificationData) :=
  let user := getUser h (user_id user) in
  if negb (friendActivity cfg) then Ok None
  else
    user ← deref user;
    let notification (t b : jsstring) (c : ClickAction) :=
      {| title := t; icon := User_getAvatarURL h user; body := b;
         richBody := None; image := None; n_attachments := 0;
         permanent := None; onClick := Some c |} in
    match type with
    | FRIEND =>
        Ok (Some (notification
                    (username user ++ str " is now your friend")
                    (str "You can now message them directly.")
                    (SwitchChannels None (user_id user))))
    | INCOMING_REQUEST =>
        Ok (Some (notification
                    (username user ++ str " sent you a friend request")
                    (str "You can accept or decline it in the Friends tab.")
                    (SwitchChannels None [])))
    | OTHER_RELATIONSHIP => Ok None
    end.

(** The handler calls [relationshipAdd] without awaiting it. *)
Definition RELATIONSHIP_ADD (h : Host) (cfg : Settings) (st : State)
    (user : User) (type : RelationshipType)
  : result (option NotificationData) :=
  if array_includes (ignoredUsers st) (user_id user) then Ok None
  else not_awaited (relationshipAdd h cfg user type).

End Legacy.

(* ================================================================== *)
(** * The notions of the specification *)
(* ================================================================== *)

(** The effective notification level in the words of the specification:
    the per-channel override if present, else the per-guild default if
    present, else "no messages". *)
Definition effective_level (h : Host) (channel : Channel) : Z :=
  match userGuildSettings h !! tmpl (guild_id channel) with
  | Some ugs =>
      match (channel_overrides ugs ≫= (.!! channel_id channel))
            ≫= co_message_notifications with
      | Some override => override
      | None => default NO_MESSAGES (message_notifications ugs)
      end
  | None => NO_MESSAGES
  end.

(** The mention token [<@id>] of a user. *)
Definition mention_token (id : jsstring) : jsstring :=
  str "<@" ++ id ++ str ">".

(** [s] contains [p]. *)
Definition contains (s p : jsstring) : Prop :=
  ∃ pre post, s = pre ++ p ++ post.

(** [s] ends in [p]. *)
Definition ends_in (s p : jsstring) : Prop := ∃ pre, s = pre ++ p.

(** The message with another text. *)
Definition with_content (m : Message) (c : jsstring) : Message :=
  {| author := author m; content := c; msg_type := msg_type m;
     mentions := mentions m; mentionRoles := mentionRoles m;
     embeds := embeds m; stickerItems := stickerItems m;
     attachments := attachments m; msg_channel_id := msg_channel_id m |}.

(** The plain-text segments of a rich body, concatenated. *)
Fixpoint texts (els : list RichElement) : jsstring :=
  match els with
  | [] => []
  | Text s :: els' => s ++ texts els'
  | Span _ _ :: els' => texts els'
  end.

(** The body with every mention token removed:
    [body.replace(USER_MENTION_REGEX, "")]. *)
Definition removeMentions (body : jsstring) : jsstring :=
  replace_all USER_MENTION_REGEX (λ _, []) body.

(** The guild of the channel, when it has one, is in the guild store. *)
Definition guild_known (h : Host) (channel : Channel) : Prop :=
  ∀ g, guild_id channel = Some g → g ≠ [] → is_Some (getGuild h g).

(** The emote token [<:name:id>], or [<a:name:id>] when animated. *)
Definition emote_token (animated : bool) (name id : jsstring) : jsstring :=
  str "<" ++ (if animated then str "a" else []) ++ str ":" ++ name
  ++ str ":" ++ id ++ str ">".

Definition is_emote_token (t : jsstring) : Prop :=
  ∃ animated name id,
    name ≠ [] ∧ Forall (λ c, isWord c = true) name ∧
    id ≠ [] ∧ Forall (λ c, isDigit c = true) id ∧
    t = emote_token animated name id.

(** What a click on the toast asks of the host. *)
Definition run_click (h : Host) (n : NotificationData) : list HostCall :=
  match onClick n with
  | Some c => click h c
  | None => []
  end.

(** Every alternative starts with an atom that takes a character. *)
Definition consuming (re : regex) : Prop :=
  Forall (λ a, ∃ x rest, alt_atoms a = x :: rest ∧ 1 ≤ a_min x) re.

(** The rich body the formatter derives from a text: the mention split of
    the text when the message carries mentions and the split is not empty,
    nothing otherwise. *)
Definition rich_from (h : Host) (message : Message) (channel : Channel)
    (text : jsstring) : result (option (list RichElement)) :=
  if (0 <? length (mentions message)) || (0 <? length (mentionRoles message))
  then (λ els, match els with [] => None | _ => Some els end)
         <$> parseMentions h text channel
  else Ok None.

(** The label of a group DM in the words of the claim: the channel name if
    set, else the first three recipients' usernames joined by ", ". *)
Definition named_label (channel : Channel) (recipients : list User)
  : jsstring :=
  match channel_name channel with
  | Some (c :: n) => c :: n
  | _ => join (str ", ") (username <$> take 3 recipients)
  end.

(** The label the code uses: the name is trimmed first, and counts as set
    when something is left. *)
Definition trimmed_label (channel : Channel) (recipients : list User)
  : jsstring :=
  match trim <$> channel_name channel with
  | Some (c :: n) => c :: n
  | _ => join (str ", ") (username <$> take 3 recipients)
  end.

(** A label cut to 20 characters with an ellipsis appended when longer. *)
Definition clip20 (label : jsstring) : jsstring :=
  if 20 <? length label then take 20 label ++ ELLIPSIS else label.

Definition group_title (message : Message) (label : jsstring) : jsstring :=
  username (author message) ++ str " (" ++ clip20 label ++ str ")".

(** Every alternative opens with the literal [c], and no later atom takes
    [c]: a match cannot run over a later [c]. *)
Definition opened_by (c : ascii) (re : regex) : Prop :=
  Forall (λ a, ∃ rest, alt_atoms a = lit c :: rest ∧
                       Forall (λ b, a_cls b (chr c) = false) rest) re.

(** The atoms of the emote pattern. *)
Definition emote_atoms : list atom :=
  [lit "<"; opt "a"; lit ":"; plus isWord; lit ":"; plus isDigit; lit ">"].

(** An emote token without its opening bracket. *)
Definition emote_tail (animated : bool) (name id : jsstring) : jsstring :=
  (if animated then [chr "a"] else []) ++ chr ":" :: name
  ++ chr ":" :: id ++ [chr ">"].

(** No part of [s] is an emote token. *)
Definition token_free (s : jsstring) : Prop :=
  ∀ pre t post, s = pre ++ t ++ post → ¬ is_emote_token t.

(** The toasts whose click handler goes through [switchChannels]: those of
    guild messages and of relationship events, in both revisions. *)
Definition routed (h : Host) (cfg : Settings) (st : State) (m : Message)
    (user : User) (type : RelationshipType) (n : NotificationData) : Prop :=
  handleGuildMessage h cfg st m = Ok (Some n)
  ∨ Legacy.handleGuildMessage h cfg st m = Ok (Some n)
  ∨ relationshipAdd h cfg user type = Ok (Some n)
  ∨ Legacy.relationshipAdd h cfg user type = Ok (Some n).

(* ================================================================== *)
(** * Further notions *)
(* ================================================================== *)

(** An id as it is written in a settings list: not empty, without
    whitespace and without a comma. *)
Definition clean_id (id : jsstring) : Prop :=
  id ≠ [] ∧ Forall (λ c, isSpace c = false ∧ c ≠ chr ",") id.

(** The settings with every message body redacted. *)
Definition redacting (cfg : Settings) : Settings :=
  {| determineServerNotifications := determineServerNotifications cfg;
     disableInStreamerMode := disableInStreamerMode cfg;
     renderImages := renderImages cfg;
     directMessages := directMessages cfg;
     groupMessages := groupMessages cfg;
     friendServerNotifications := friendServerNotifications cfg;
     friendActivity := friendActivity cfg;
     streamingTreatment := streamingTreatment cfg;
     s_notifyFor := s_notifyFor cfg;
     s_ignoreUsers := s_ignoreUsers cfg;
     disableMessageBody := true |}.

(** The route [switchChannels] navigates to. *)
Definition route (guildId : option jsstring) (channelId : jsstring)
  : jsstring :=
  str "/channels/" ++ default (str "@me") guildId ++ str "/" ++ channelId
  ++ str "/".

(** An id as the mention pattern takes it: 17 to 20 digits. *)
Definition snowflake (id : jsstring) : Prop :=
  17 ≤ length id ≤ 20 ∧ Forall (λ c, isDigit c = true) id.

(** An element of a rich body is a text, or a span whose key is the kind
    of the mention, a dash and the id. *)
Definition mention_span (e : RichElement) : Prop :=
  match e with
  | Text _ => True
  | Span key _ =>
      ∃ kind id, snowflake id ∧ key = kind_name kind ++ str "-" ++ id
  end.

(* ================================================================== *)
(** * Sample data *)
(* ================================================================== *)

Module Sample.

Definition me : User :=
  {| user_id := str "100000000000000001"; username := str "me";
     avatar := None |}.

Definition alice : User :=
  {| user_id := str "100000000000000002"; username := str "alice";
     avatar := Some (str "a1") |}.

Definition bob : User :=
  {| user_id := str "100000000000000003"; username := str "bob";
     avatar := None |}.

(** A guild channel. *)
Definition general : Channel :=
  {| channel_id := str "300000000000000001";
     guild_id := Some (str "200000000000000001");
     channel_name := Some (str "general");
     rawRecipients := None; isDM := false; isGroupDM := false |}.

(** A direct-message channel. *)
Definition dm : Channel :=
  {| channel_id := str "300000000000000002"; guild_id := None;
     channel_name := None; rawRecipients := Some [alice];
     isDM := true; isGroupDM := false |}.

(** A group DM whose name starts with a space. *)
Definition group : Channel :=
  {| channel_id := str "300000000000000003"; guild_id := None;
     channel_name := Some (str " team");
     rawRecipients := Some [alice; bob];
     isDM := false; isGroupDM := true |}.

Definition users : list User := [me; alice; bob].
Definition channels : list Channel := [general; dm; group].

Definition host : Host :=
  {| getChannel id := find (λ c, str_eqb (channel_id c) id) channels;
     hasChannel id := existsb (λ c, str_eqb (channel_id c) id) channels;
     getUser id := find (λ u, str_eqb (user_id u) id) users;
     getCurrentUser := me;
     getGuild _ := Some {| getRole _ := None |};
     getNickname _ := None;
     isFriend _ := false;
     UserUtils_getName := username;
     getChannelId := None;
     isChannelMuted _ := false;
     isGuildOrCategoryOrChannelMuted _ _ := false;
     allowAllMessages _ := true;
     User_getAvatarURL := getAvatarURL;
     activeStreams := None;
     streamerModeEnabled := false;
     userGuildSettings := ∅ |}.

(** The default settings, with the guild channel in the always-notify
    list, and the same with every message body redacted. *)
Definition cfg : Settings :=
  {| determineServerNotifications := true; disableInStreamerMode := true;
     renderImages := true; directMessages := true; groupMessages := true;
     friendServerNotifications := true; friendActivity := true;
     streamingTreatment := NORMAL;
     s_notifyFor := str "300000000000000001"; s_ignoreUsers := [];
     disableMessageBody := false |}.

Definition cfg_redact : Settings :=
  {| determineServerNotifications := true; disableInStreamerMode := true;
     renderImages := true; directMessages := true; groupMessages := true;
     friendServerNotifications := true; friendActivity := true;
     streamingTreatment := NORMAL;
     s_notifyFor := str "300000000000000001"; s_ignoreUsers := [];
     disableMessageBody := true |}.

Definition st : State := start cfg.

Definition message (a : User) (c : Channel) (text : jsstring)
    (ms : list Mention) : Message :=
  {| author := a; content := text; msg_type := OTHER_MESSAGE_TYPE;
     mentions := ms; mentionRoles := []; embeds := [];
     stickerItems := None; attachments := [];
     msg_channel_id := channel_id c |}.

(** The current user writes in the guild channel. *)
Definition own_message : Message := message me general (str "hello") [].

(** A mention followed by text. *)
Definition mention_then_text : jsstring := str "<@100000000000000002> hi".

(** A mention followed by 170 letters. *)
Definition long_text : jsstring :=
  str "<@100000000000000002> " ++ replicate 170 (chr "a").

Definition long_message : Message :=
  message alice general long_text [MentionId (str "100000000000000002")].

(** A text that holds an emote token only once the first one is
    rewritten. *)
Definition nested_emotes : jsstring := str "<<:x:1>5> <:x:5>".

End Sample.

(** More sample data: settings that ignore two users, a toast, and a user
    the user store of [Sample.host] does not hold. *)
Module Case.

Definition cfg_ignore : Settings :=
  {| determineServerNotifications := true; disableInStreamerMode := true;
     renderImages := true; directMessages := true; groupMessages := true;
     friendServerNotifications := true; friendActivity := true;
     streamingTreatment := NORMAL;
     s_notifyFor := [];
     s_ignoreUsers := str "100000000000000002, 100000000000000003";
     disableMessageBody := false |}.

Definition toast : NotificationData :=
  {| title := str "t"; icon := []; body := []; richBody := None;
     image := None; n_attachments := 0; permanent := None;
     onClick := None |}.

Definition carol : User :=
  {| user_id := str "100000000000000009"; username := str "carol";
     avatar := None |}.

(** A direct message of [Sample.alice] with the text
    [Sample.nested_emotes]. *)
Definition nested_message : Message :=
  Sample.message Sample.alice Sample.dm Sample.nested_emotes [].

End Case.

(* ================================================================== *)
(** * Calls that are not awaited *)
(* ================================================================== *)

Lemma not_awaited_Some {A} (r : result (option A)) a :
  not_awaited r = Ok (Some a) → r = Ok (Some a).
Proof. by destruct r as [[x|]|]. Qed.

Lemma not_awaited_Ok {A} (r : result (option A)) shown :
  r = Ok shown → not_awaited r = Ok shown.
Proof. by intros ->. Qed.

(* ================================================================== *)
(** * Examples of matching *)
(* ================================================================== *)

Example scan_mentions :
  scan USER_MENTION_REGEX
       (str "hello <@111111111111111111> check <#222222222222222222>") 0 0
  = [ (6, RMatch 0 21 (str "111111111111111111"));
      (34, RMatch 1 21 (str "222222222222222222")) ].
Proof. vm_compute. reflexivity. Qed.

(** The emote tokens of the specification, in both revisions. *)
Example emote_examples :
  formatEmotes (str "<:foo:123>") = str ":foo:" ∧
  formatEmotes (str "<a:foo:123>") = str ":foo:" ∧
  Legacy.replaceEmotes (str "<:foo:123>") = str ":foo:" ∧
  Legacy.replaceEmotes (str "<a:foo:123>") = str ":foo:".
Proof. repeat split; vm_compute; reflexivity. Qed.

(* ================================================================== *)
(** * Strings *)
(* ================================================================== *)

Lemma str_eqb_eq a b : str_eqb a b = true ↔ a = b.
Proof.
  revert b. induction a as [|x a IH]; intros [|y b]; simpl;
    [done|split; discriminate..|].
  rewrite andb_true_iff, N.eqb_eq, IH. split.
  - by intros [-> ->].
  - intros [= ]. by subst.
Qed.

Lemma str_eqb_refl a : str_eqb a a = true.
Proof. by apply str_eqb_eq. Qed.

Lemma array_includes_elem l x : array_includes l x = true ↔ x ∈ l.
Proof.
  induction l as [|y l IH]; simpl.
  - split; [done|]. by intros ?%elem_of_nil.
  - rewrite orb_true_iff, str_eqb_eq, IH, elem_of_cons.
    split; (intros [?|?]; [left|right]); done.
Qed.

Lemma startsWith_app s p : startsWith s p = true ↔ ∃ post, s = p ++ post.
Proof.
  revert s. induction p as [|x p IH]; intros s; simpl.
  - destruct s; split; eauto.
  - destruct s as [|y s].
    + split; [done|]. by intros [post [=]].
    + simpl. rewrite andb_true_iff, N.eqb_eq, IH. split.
      * intros [-> [post ->]]. by exists post.
      * intros [post [= ]]. subst. eauto.
Qed.

Lemma includes_contains s p : includes s p = true ↔ contains s p.
Proof.
  unfold contains. induction s as [|c s IH]; cbn [includes].
  - rewrite orb_false_r, startsWith_app. split.
    + intros [post ->]. by exists [], post.
    + intros (pre & post & H). symmetry in H.
      apply app_eq_nil in H as [-> H]. apply app_eq_nil in H as [-> ->].
      by exists [].
  - rewrite orb_true_iff, startsWith_app, IH. split.
    + intros [[post ->]|(pre & post & ->)].
      * by exists [], post.
      * by exists (c :: pre), post.
    + intros ([|c' pre] & post & H); simpl in H.
      * left. eauto.
      * injection H as -> ->. right. eauto.
Qed.

(* ================================================================== *)
(** * Properties of the matcher *)
(* ================================================================== *)

Lemma run_le cls cap s : run cls cap s ≤ length s.
Proof.
  revert cap. induction s as [|c s IH]; intros cap; simpl; [lia|].
  destruct (cls c); [|lia].
  destruct cap as [[|k]|]; [lia|..].
  - specialize (IH (Some k)). lia.
  - specialize (IH None). lia.
Qed.

Lemma backtrack_Some cont lo k r :
  backtrack cont lo k = Some r →
  ∃ j r', r = j :: r' ∧ lo ≤ j ≤ k ∧ cont j = Some r'.
Proof.
  induction k as [|k IH]; simpl.
  - destruct (0 <? lo) eqn:E; [done|]. apply Nat.ltb_ge in E.
    destruct (cont 0) as [l|] eqn:C; [|done].
    intros [= <-]. exists 0, l. split_and!; auto; lia.
  - destruct (S k <? lo) eqn:E; [done|]. apply Nat.ltb_ge in E.
    destruct (cont (S k)) as [l|] eqn:C.
    + intros [= <-]. exists (S k), l. split_and!; auto.
    + intros H. destruct (IH H) as (j & r' & -> & Hj & Hc).
      exists j, r'. split_and!; auto; lia.
Qed.

Lemma match_seq_length atoms s cs :
  match_seq atoms s = Some cs → sum_list cs ≤ length s.
Proof.
  revert s cs. induction atoms as [|a rest IH]; intros s cs; simpl.
  - intros [= <-]. simpl. lia.
  - intros H. apply backtrack_Some in H as (j & r' & -> & [_ Hj] & Hc).
    apply IH in Hc. rewrite length_drop in Hc.
    pose proof (run_le (a_cls a) (a_max a) s). simpl. lia.
Qed.

Lemma match_seq_first a rest s cs :
  match_seq (a :: rest) s = Some cs → a_min a ≤ sum_list cs.
Proof.
  simpl. intros H. apply backtrack_Some in H as (j & r' & -> & [Hj _] & _).
  simpl. lia.
Qed.

Lemma exec_from_length i re s m :
  exec_from i re s = Some m → m_len m ≤ length s.
Proof.
  revert i. induction re as [|a re IH]; intros i; simpl; [done|].
  destruct (alt_match i a s) as [m'|] eqn:E; [|by apply IH].
  intros [= ->]. unfold alt_match in E.
  destruct (match_seq (alt_atoms a) s) as [cs|] eqn:M; simpl in E; [|done].
  injection E as <-. simpl. by eapply match_seq_length.
Qed.

Lemma exec_from_pos i re s m :
  consuming re → exec_from i re s = Some m → 1 ≤ m_len m.
Proof.
  intros Hre. revert i. induction Hre as [|a re (x & rest & Ha & Hx) _ IH];
    intros i; simpl; [done|].
  destruct (alt_match i a s) as [m'|] eqn:E; [|by apply IH].
  intros [= ->]. unfold alt_match in E.
  destruct (match_seq (alt_atoms a) s) as [cs|] eqn:M; simpl in E; [|done].
  injection E as <-. simpl. rewrite Ha in M.
  apply match_seq_first in M. lia.
Qed.

Lemma exec_at_bounds re s m :
  consuming re → exec_at re s = Some m → 1 ≤ m_len m ≤ length s.
Proof.
  intros Hre H. split; [by eapply exec_from_pos | by eapply exec_from_length].
Qed.

Lemma exec_at_nil re : consuming re → exec_at re [] = None.
Proof.
  intros Hre. destruct (exec_at re []) as [m|] eqn:E; [|done].
  apply exec_at_bounds in E; [simpl in E; lia | done].
Qed.

Lemma USER_MENTION_REGEX_consuming : consuming USER_MENTION_REGEX.
Proof.
  repeat (apply List.Forall_cons;
          [simpl; eexists _, _; split; [reflexivity|simpl; lia]|]).
  apply List.Forall_nil.
Qed.

Lemma EMOTE_REGEX_consuming : consuming EMOTE_REGEX.
Proof.
  repeat (apply List.Forall_cons;
          [simpl; eexists _, _; split; [reflexivity|simpl; lia]|]).
  apply List.Forall_nil.
Qed.

(* ================================================================== *)
(** * Mention substitution *)
(* ================================================================== *)

Lemma texts_app a b : texts (a ++ b) = texts a ++ texts b.
Proof.
  induction a as [|[s|k n] a IH]; simpl; [done| |done].
  by rewrite IH, app_assoc.
Qed.

Lemma addMention_span h id k g e :
  addMention h id k g = Ok e → texts [e] = [].
Proof.
  unfold addMention. destruct k; simpl.
  - by intros [= <-].
  - by intros [= <-].
  - destruct g as [[|c g]|]; simpl; try by intros [= <-].
    destruct (getGuild h (c :: g)); simpl; [by intros [= <-]|done].
Qed.

Lemma mention_for_texts h channel m mo :
  mention_for h channel m = Ok mo → texts (option_list mo) = [].
Proof.
  unfold mention_for.
  repeat match goal with
         | |- (if ?b then _ else _) = _ → _ => destruct b
         end;
    try (destruct (addMention _ _ _ _) as [e|] eqn:A; simpl;
         [intros [= <-]; by eapply addMention_span | done]).
  by intros [= <-].
Qed.

Section loop.
Context (h : Host) (channel : Channel) (body : jsstring) (re : regex).
Hypothesis re_consuming : consuming re.

Lemma mention_loop_texts s : ∀ pre k els li r,
  body = pre ++ s → k ≤ length s →
  li ≤ length pre + k → (0 < k → li = length pre + k) →
  mention_loop h body channel (scan re s (length pre) k) els li = Ok r →
  texts r.1 ++ drop r.2 body
  = texts els ++ take (length pre - li) (drop li body)
    ++ replace_go re (λ _, []) s k.
Proof.
  induction s as [|c tl IH]; intros pre k els li r Hb Hk Hli Hin.
  - simpl in Hk. assert (k = 0) as -> by lia. simpl.
    rewrite exec_at_nil by done. simpl. intros [= <-]. simpl.
    rewrite app_nil_r in Hb. subst body. f_equal.
    rewrite app_nil_r, take_ge; [done|]. rewrite length_drop. lia.
  - assert (Hb' : body = (pre ++ [c]) ++ tl) by (by rewrite <- app_assoc).
    assert (Hl' : length (pre ++ [c]) = S (length pre))
      by (rewrite length_app; simpl; lia).
    simpl in Hk. destruct k as [|k]; simpl.
    + destruct (exec_at re (c :: tl)) as [m|] eqn:E.
      * pose proof (exec_at_bounds _ _ _ re_consuming E) as [Hm1 Hm2].
        simpl in Hm2. simpl.
        destruct (mention_for h channel m) as [mo|] eqn:Hmo; simpl; [|done].
        rewrite <- Hl'. intros Hr.
        apply IH in Hr; [|done|lia|lia|lia].
        rewrite Hr, !texts_app, (mention_for_texts _ _ _ _ Hmo). simpl.
        replace (length (pre ++ [c]) - _) with 0 by lia. simpl.
        rewrite app_nil_r. destruct (m_len m) as [|l] eqn:L; [lia|].
        simpl. replace (l - 0) with l by lia.
        rewrite <- app_assoc. f_equal. f_equal.
        unfold slice.
        assert (length pre ≤ length body)
          by (rewrite Hb, length_app; lia).
        replace (li `min` length body) with li by lia.
        rewrite app_nil_r.
        by replace (length pre `min` length body) with (length pre) by lia.
      * rewrite <- Hl'. intros Hr.
        apply IH in Hr; [|done|lia|lia|lia].
        rewrite Hr. f_equal.
        replace (length (pre ++ [c]) - li) with (S (length pre - li)) by lia.
        rewrite (take_S_r _ _ c).
        -- by rewrite <- app_assoc.
        -- rewrite lookup_drop. replace (li + _) with (length pre) by lia.
           rewrite Hb. by rewrite list_lookup_middle.
    + rewrite <- Hl'. intros Hr.
      apply IH in Hr; [|done|lia|lia|lia].
      rewrite Hr.
      replace (length (pre ++ [c]) - li) with 0 by lia.
      replace (length pre - li) with 0 by lia. done.
Qed.
End loop.

(* ================================================================== *)
(** * Matching an atom *)
(* ================================================================== *)

Lemma run_stop cls cap s c y :
  cls c = false → run cls cap (s ++ c :: y) = run cls cap s.
Proof.
  intros Hc. revert cap. induction s as [|x s IH]; intros cap; simpl.
  - by rewrite Hc.
  - destruct (cls x); [|done]. destruct cap as [[|k]|]; by rewrite ?IH.
Qed.

Lemma run_all cls s y :
  Forall (λ c, cls c = true) s →
  match y with [] => True | c :: _ => cls c = false end →
  run cls None (s ++ y) = length s.
Proof.
  intros Hs Hy. induction Hs as [|x s Hx _ IH]; simpl.
  - destruct y as [|c y]; simpl; [done|by rewrite Hy].
  - by rewrite Hx, IH.
Qed.

Lemma run_take cls cap s j :
  j ≤ run cls cap s →
  Forall (λ c, cls c = true) (take j s) ∧ length (take j s) = j.
Proof.
  revert cap j. induction s as [|x s IH]; intros cap j; simpl.
  - intros Hj. assert (j = 0) as -> by lia. simpl. by split.
  - destruct j as [|j]; [simpl; by split|].
    destruct (cls x) eqn:Hx; [|lia].
    assert (∀ cap', j ≤ run cls cap' s →
              Forall (λ c, cls c = true) (take (S j) (x :: s))
              ∧ length (take (S j) (x :: s)) = S j) as Hstep.
    { intros cap' Hj. destruct (IH cap' j Hj) as [IH1 IH2].
      simpl. split; [by constructor|lia]. }
    destruct cap as [[|k]|]; intros Hj;
      [lia | apply (Hstep (Some k)); lia | apply (Hstep None); lia].
Qed.

Lemma backtrack_ext cont cont' lo k :
  (∀ j, j ≤ k → cont j = cont' j) →
  backtrack cont lo k = backtrack cont' lo k.
Proof.
  induction k as [|k IH]; intros H; simpl.
  - by rewrite (H 0).
  - rewrite (H (S k)) by lia. rewrite IH; [done|]. intros j Hj. apply H. lia.
Qed.

Lemma backtrack_first cont lo k r :
  lo ≤ k → cont k = Some r → backtrack cont lo k = Some (k :: r).
Proof.
  intros Hk Hc. destruct k; simpl; rewrite Hc.
  - assert (lo = 0) as -> by lia. done.
  - by replace (S k <? lo) with false by (symmetry; apply Nat.ltb_ge; lia).
Qed.

Lemma is_char_chr a : is_char a (chr a) = true.
Proof. apply N.eqb_refl. Qed.

Lemma is_char_true a c : is_char a c = true → c = chr a.
Proof. apply N.eqb_eq. Qed.

Lemma match_lit a rest s :
  match_seq (lit a :: rest) s
  = match s with
    | c :: s' => if is_char a c then cons 1 <$> match_seq rest s' else None
    | [] => None
    end.
Proof.
  destruct s as [|c s']; simpl; [done|].
  destruct (is_char a c); simpl; [|done].
  replace (run (is_char a) (Some 0) s') with 0
    by (destruct s'; simpl; [done|by destruct (is_char a _)]).
  simpl. rewrite drop_0. by destruct (match_seq rest s').
Qed.

Lemma match_opt a rest s :
  match_seq (opt a :: rest) s
  = match s with
    | c :: s' =>
        if is_char a c then
          match match_seq rest s' with
          | Some r => Some (1 :: r)
          | None => cons 0 <$> match_seq rest s
          end
        else cons 0 <$> match_seq rest s
    | [] => cons 0 <$> match_seq rest s
    end.
Proof.
  destruct s as [|c s']; simpl.
  - by destruct (match_seq rest []).
  - destruct (is_char a c); simpl.
    + replace (run (is_char a) (Some 0) s') with 0
        by (destruct s'; simpl; [done|by destruct (is_char a _)]).
      simpl. rewrite drop_0. destruct (match_seq rest s'); [done|].
      by destruct (match_seq rest (c :: s')).
    + by destruct (match_seq rest (c :: s')).
Qed.

Lemma match_plus cls rest x y r :
  x ≠ [] → Forall (λ c, cls c = true) x →
  match y with [] => True | c :: _ => cls c = false end →
  match_seq rest y = Some r →
  match_seq (plus cls :: rest) (x ++ y) = Some (length x :: r).
Proof.
  intros Hx Hall Hy Hr. simpl. rewrite run_all by done.
  apply backtrack_first.
  - destruct x; [done|simpl; lia].
  - by rewrite drop_app_length.
Qed.

Lemma match_plus_inv cls rest s cs :
  match_seq (plus cls :: rest) s = Some cs →
  ∃ x y r, s = x ++ y ∧ x ≠ [] ∧ Forall (λ c, cls c = true) x ∧
           cs = length x :: r ∧ match_seq rest y = Some r.
Proof.
  simpl. intros H. apply backtrack_Some in H as (j & r & -> & [Hlo Hj] & Hc).
  apply run_take in Hj as [Hall Hlen].
  exists (take j s), (drop j s), r. split_and!; try done.
  - by rewrite take_drop.
  - intros E. rewrite E in Hlen. simpl in *. lia.
  - by rewrite Hlen.
Qed.

Lemma match_seq_stop atoms c y :
  Forall (λ a, a_cls a c = false) atoms →
  ∀ s, match_seq atoms (s ++ c :: y) = match_seq atoms s.
Proof.
  induction 1 as [|a atoms Ha _ IH]; intros s; simpl; [done|].
  rewrite run_stop by done. apply backtrack_ext. intros j Hj.
  pose proof (run_le (a_cls a) (a_max a) s).
  rewrite drop_app_le by lia. apply IH.
Qed.

Lemma mention_for_total h channel m :
  guild_known h channel → ∃ mo, mention_for h channel m = Ok mo.
Proof.
  intros Hg. unfold mention_for, addMention.
  repeat match goal with
         | |- ∃ _, (if ?b then _ else _) = _ => destruct b
         end; simpl; eauto.
  destruct (guild_id channel) as [[|c g]|] eqn:G; simpl; eauto.
  destruct (Hg (c :: g)) as [gd ->]; simpl; eauto.
Qed.

Lemma mention_loop_total h body channel ms :
  guild_known h channel →
  ∀ els li, ∃ r, mention_loop h body channel ms els li = Ok r.
Proof.
  intros Hg. induction ms as [|[off m] ms IH]; intros els li; simpl; eauto.
  destruct (mention_for_total h channel m Hg) as [mo ->]. simpl. apply IH.
Qed.

(** The current revision: the plain-text segments of [parseMentions] are
    the body without its mention tokens, and [parseMentions] returns
    whenever the guild of a role mention can be looked up. *)
Lemma parseMentions_texts h body channel :
  (guild_known h channel → ∃ els, parseMentions h body channel = Ok els) ∧
  (∀ els, parseMentions h body channel = Ok els →
          texts els = removeMentions body).
Proof.
  unfold parseMentions. split.
  - intros Hg.
    destruct (mention_loop_total h body channel
                (scan USER_MENTION_REGEX body 0 0) Hg [] 0) as [[els li] ->].
    simpl. eauto.
  - intros els.
    destruct (mention_loop _ _ _ _ _ _) as [[els' li]|] eqn:L; simpl; [|done].
    intros [= <-].
    apply (mention_loop_texts h channel body USER_MENTION_REGEX
             USER_MENTION_REGEX_consuming body [] 0) in L;
      [|done|lia|simpl; lia|lia].
    simpl in L. unfold removeMentions, replace_all. rewrite <- L.
    destruct (li <? length body) eqn:E.
    + by rewrite texts_app; simpl; rewrite app_nil_r.
    + apply Nat.ltb_ge in E. rewrite drop_ge by done. by rewrite app_nil_r.
Qed.

(** The older revision pushes nothing after the last match: its segments
    are the body without its mention tokens and without what follows the
    last of them. *)
Lemma legacy_replaceMentions_texts h message body channel els :
  Legacy.replaceMentions h message body channel = Ok els →
  els = [] ∨ ∃ li, texts els ++ drop li body = removeMentions body.
Proof.
  unfold Legacy.replaceMentions. destruct (_ || _); [|intros [= <-]; by left].
  destruct (mention_loop _ _ _ _ _ _) as [[els' li]|] eqn:L; simpl; [|done].
  intros [= <-]. right. exists li.
  apply (mention_loop_texts h channel body USER_MENTION_REGEX
           USER_MENTION_REGEX_consuming body [] 0) in L;
    [|done|lia|simpl; lia|lia].
  simpl in L. by rewrite L.
Qed.

(* ================================================================== *)
(** * Replacing around a token *)
(* ================================================================== *)

Lemma alt_match_len i a s :
  m_len <$> alt_match i a s = sum_list <$> match_seq (alt_atoms a) s.
Proof. unfold alt_match. by destruct (match_seq (alt_atoms a) s). Qed.

Lemma exec_from_stop c re i x s y :
  opened_by c re →
  m_len <$> exec_from i re (x :: s ++ chr c :: y)
  = m_len <$> exec_from i re (x :: s).
Proof.
  intros Hre. revert i.
  induction Hre as [|a re (rest & Ha & Hrest) _ IH]; intros i; simpl; [done|].
  pose proof (alt_match_len i a (x :: s ++ chr c :: y)) as H1.
  pose proof (alt_match_len i a (x :: s)) as H2.
  rewrite Ha, !match_lit in H1, H2.
  rewrite (match_seq_stop _ _ _ Hrest) in H1. rewrite <- H2 in H1.
  destruct (alt_match i a (x :: s ++ chr c :: y)) as [m1|],
           (alt_match i a (x :: s)) as [m2|]; simpl in *;
    [done|done|done|apply IH].
Qed.

Section replace.
Context (re : regex) (f : jsstring → jsstring) (c : ascii).
Hypothesis re_consuming : consuming re.
Hypothesis re_opened : opened_by c re.

Lemma replace_go_skip x y :
  replace_go re f (x ++ y) (length x) = replace_go re f y 0.
Proof. induction x as [|a x IH]; simpl; [by destruct y|done]. Qed.

Lemma replace_go_before pre y : ∀ k,
  k ≤ length pre →
  replace_go re f (pre ++ chr c :: y) k
  = replace_go re f pre k ++ replace_go re f (chr c :: y) 0.
Proof.
  induction pre as [|x pre IH]; intros k Hk; simpl in Hk.
  - assert (k = 0) as -> by lia.
    simpl (replace_go re f [] 0). by rewrite exec_at_nil.
  - destruct k as [|k]; [|apply IH; lia].
    cbn [app replace_go].
    pose proof (exec_from_stop c re 0 x pre y re_opened) as Hs.
    fold (exec_at re (x :: pre ++ chr c :: y)) in Hs.
    fold (exec_at re (x :: pre)) in Hs.
    destruct (exec_at re (x :: pre ++ chr c :: y)) as [m1|],
             (exec_at re (x :: pre)) as [m2|] eqn:E2; simpl in Hs;
      try done.
    + injection Hs as ->.
      apply exec_at_bounds in E2 as [Hm1 Hm2]; [|done]. simpl in Hm2.
      destruct (m_len m2) as [|l]; [lia|].
      rewrite IH by lia. rewrite <- app_assoc. f_equal.
      rewrite app_comm_cons, take_app_le; [done|simpl; lia].
    + by rewrite IH by lia.
Qed.

Lemma replace_go_token pre t post :
  m_len <$> exec_at re (chr c :: t ++ post) = Some (S (length t)) →
  replace_all re f (pre ++ (chr c :: t) ++ post)
  = replace_all re f pre ++ f (chr c :: t) ++ replace_all re f post.
Proof.
  intros Hm. unfold replace_all.
  cbn [app]. rewrite replace_go_before by lia. f_equal.
  cbn [replace_go].
  destruct (exec_at re (chr c :: t ++ post)) as [m|]; [|done].
  injection Hm as ->. f_equal.
  - by rewrite app_comm_cons, take_app_length'.
  - apply replace_go_skip.
Qed.

Lemma replace_go_none s :
  (∀ k, exec_at re (drop k s) = None) → replace_all re f s = s.
Proof.
  unfold replace_all. induction s as [|x s IH]; intros H; simpl.
  - by rewrite exec_at_nil.
  - pose proof (H 0) as H0. simpl in H0. rewrite H0. f_equal.
    apply IH. intros k. apply (H (S k)).
Qed.
End replace.

Lemma EMOTE_REGEX_opened : opened_by "<" EMOTE_REGEX.
Proof.
  apply List.Forall_cons; [|apply List.Forall_nil].
  eexists. split; [reflexivity|].
  repeat (apply List.Forall_cons; [reflexivity|]). apply List.Forall_nil.
Qed.

(* ================================================================== *)
(** * Emote normalisation *)
(* ================================================================== *)

Lemma emote_token_cons animated name id :
  emote_token animated name id = chr "<" :: emote_tail animated name id.
Proof.
  unfold emote_token, emote_tail.
  change (str "<") with [chr "<"]. change (str "a") with [chr "a"].
  change (str ":") with [chr ":"]. change (str ">") with [chr ">"].
  by destruct animated.
Qed.

Lemma emote_tail_length animated name id :
  length (emote_tail animated name id)
  = (if animated then 1 else 0) + length name + length id + 3.
Proof.
  unfold emote_tail. destruct animated; cbn [app length];
    rewrite ?length_app; cbn [length]; rewrite ?length_app; cbn [length]; lia.
Qed.

Lemma emote_tail_app animated name id post :
  emote_tail animated name id ++ post
  = (if animated then [chr "a"] else []) ++ chr ":" :: name
    ++ chr ":" :: id ++ chr ">" :: post.
Proof.
  unfold emote_tail.
  by repeat (progress (rewrite <- ?app_assoc; cbn [app])).
Qed.

Lemma emote_match animated name id post :
  name ≠ [] → Forall (λ c, isWord c = true) name →
  id ≠ [] → Forall (λ c, isDigit c = true) id →
  match_seq emote_atoms (chr "<" :: emote_tail animated name id ++ post)
  = Some [1; if animated then 1 else 0; 1; length name; 1; length id; 1].
Proof.
  intros Hn Hname Hi Hid.
  assert (A1 : match_seq [lit ">"] (chr ">" :: post) = Some [1])
    by (by rewrite match_lit, is_char_chr).
  assert (A2 : match_seq [plus isDigit; lit ">"] (id ++ chr ">" :: post)
               = Some [length id; 1])
    by (by apply match_plus).
  assert (A3 : match_seq [lit ":"; plus isDigit; lit ">"]
                 (chr ":" :: id ++ chr ">" :: post)
               = Some [1; length id; 1])
    by (by rewrite match_lit, is_char_chr, A2).
  assert (A4 : match_seq [plus isWord; lit ":"; plus isDigit; lit ">"]
                 (name ++ chr ":" :: id ++ chr ">" :: post)
               = Some [length name; 1; length id; 1])
    by (by apply match_plus).
  assert (A5 : match_seq [lit ":"; plus isWord; lit ":"; plus isDigit; lit ">"]
                 (chr ":" :: name ++ chr ":" :: id ++ chr ">" :: post)
               = Some [1; length name; 1; length id; 1])
    by (by rewrite match_lit, is_char_chr, A4).
  unfold emote_atoms. rewrite match_lit, is_char_chr, match_opt.
  rewrite emote_tail_app.
  destruct animated; cbn [app].
  - by rewrite is_char_chr, A5.
  - replace (is_char "a" (chr ":")) with false by reflexivity.
    by rewrite A5.
Qed.

Lemma emote_match_inv s cs :
  match_seq emote_atoms s = Some cs →
  ∃ animated name id post,
    name ≠ [] ∧ Forall (λ c, isWord c = true) name ∧
    id ≠ [] ∧ Forall (λ c, isDigit c = true) id ∧
    s = chr "<" :: emote_tail animated name id ++ post ∧
    sum_list cs = S (length (emote_tail animated name id)).
Proof.
  unfold emote_atoms. rewrite match_lit.
  destruct s as [|c0 s]; [done|].
  destruct (is_char "<" c0) eqn:E0; [|done]. apply is_char_true in E0 as ->.
  assert (Hrest : ∀ t r,
    match_seq [lit ":"; plus isWord; lit ":"; plus isDigit; lit ">"] t
    = Some r →
    ∃ name id post,
      name ≠ [] ∧ Forall (λ c, isWord c = true) name ∧
      id ≠ [] ∧ Forall (λ c, isDigit c = true) id ∧
      t = chr ":" :: name ++ chr ":" :: id ++ chr ">" :: post ∧
      sum_list r = length name + length id + 3).
  { intros t r. rewrite match_lit. destruct t as [|c1 t]; [done|].
    destruct (is_char ":" c1) eqn:E1; [|done]. apply is_char_true in E1 as ->.
    destruct (match_seq _ t) as [r1|] eqn:M1; [|done]. intros [= <-].
    apply match_plus_inv in M1 as (name & t2 & r2 & -> & Hn & Hname & -> & M2).
    rewrite match_lit in M2. destruct t2 as [|c2 t2]; [done|].
    destruct (is_char ":" c2) eqn:E2; [|done]. apply is_char_true in E2 as ->.
    destruct (match_seq _ t2) as [r3|] eqn:M3; [|done].
    injection M2 as <-.
    apply match_plus_inv in M3 as (id & t4 & r4 & -> & Hi & Hid & -> & M4).
    rewrite match_lit in M4. destruct t4 as [|c4 t4]; [done|].
    destruct (is_char ">" c4) eqn:E4; [|done]. apply is_char_true in E4 as ->.
    injection M4 as <-.
    exists name, id, t4. split_and!; try done. simpl. lia. }
  destruct (match_seq _ s) as [r|] eqn:M; [|done]. intros [= <-].
  rewrite match_opt in M.
  assert (∃ animated t r',
            s = (if animated : bool then [chr "a"] else []) ++ t ∧
            match_seq [lit ":"; plus isWord; lit ":"; plus isDigit; lit ">"] t
            = Some r' ∧
            sum_list r = (if animated then 1 else 0) + sum_list r')
    as (animated & t & r' & -> & M' & Hsum).
  { destruct s as [|c1 s].
    - destruct (match_seq _ []) as [r'|] eqn:M'; [|done].
      injection M as <-. by exists false, [], r'.
    - destruct (is_char "a" c1) eqn:E1.
      + apply is_char_true in E1 as ->.
        destruct (match_seq _ s) as [r'|] eqn:M'.
        * injection M as <-. by exists true, s, r'.
        * destruct (match_seq _ (chr "a" :: s)) as [r'|] eqn:M''; [|done].
          injection M as <-. by exists false, (chr "a" :: s), r'.
      + destruct (match_seq _ (c1 :: s)) as [r'|] eqn:M'; [|done].
        injection M as <-. by exists false, (c1 :: s), r'. }
  apply Hrest in M' as (name & id & post & Hn & Hname & Hi & Hid & -> & Hr').
  exists animated, name, id, post. split_and!; try done.
  - by rewrite emote_tail_app.
  - rewrite emote_tail_length. simpl. lia.
Qed.

Lemma exec_at_EMOTE s :
  m_len <$> exec_at EMOTE_REGEX s = sum_list <$> match_seq emote_atoms s.
Proof.
  unfold exec_at, EMOTE_REGEX. cbn [exec_from].
  pose proof (alt_match_len 0 (Alt emote_atoms (0, 7)) s) as H.
  fold emote_atoms. by destruct (alt_match 0 _ s).
Qed.

Lemma split_on_sep sep x y :
  Forall (λ c, c ≠ sep) x →
  split_on sep (x ++ sep :: y) = x :: split_on sep y.
Proof.
  induction 1 as [|c x Hc _ IH]; simpl.
  - by rewrite N.eqb_refl.
  - apply N.eqb_neq in Hc. by rewrite Hc, IH.
Qed.

Lemma emote_name animated name id :
  Forall (λ c, isWord c = true) name →
  split_on (chr ":") (chr "<" :: emote_tail animated name id) !! 1
  = Some name.
Proof.
  intros Hname. unfold emote_tail.
  rewrite app_comm_cons, split_on_sep, split_on_sep; [done|..].
  - eapply Forall_impl; [done|]. by intros c Hc ->.
  - by destruct animated; repeat constructor.
Qed.

Lemma formatEmotes_token pre post animated name id :
  name ≠ [] → Forall (λ c, isWord c = true) name →
  id ≠ [] → Forall (λ c, isDigit c = true) id →
  formatEmotes (pre ++ emote_token animated name id ++ post)
  = formatEmotes pre ++ str ":" ++ name ++ str ":" ++ formatEmotes post.
Proof.
  intros Hn Hname Hi Hid. unfold formatEmotes.
  rewrite emote_token_cons.
  rewrite (replace_go_token EMOTE_REGEX _ "<"
             EMOTE_REGEX_consuming EMOTE_REGEX_opened).
  - rewrite emote_name by done. simpl tmpl. by rewrite <- !app_assoc.
  - rewrite exec_at_EMOTE, emote_match by done. simpl. f_equal.
    rewrite emote_tail_length. destruct animated; lia.
Qed.

Lemma formatEmotes_token_free s : token_free s → formatEmotes s = s.
Proof.
  intros Hs. unfold formatEmotes.
  apply replace_go_none; [apply EMOTE_REGEX_consuming|]. intros k.
  destruct (exec_at EMOTE_REGEX (drop k s)) as [m|] eqn:E; [|done].
  pose proof (exec_at_EMOTE (drop k s)) as H. rewrite E in H.
  destruct (match_seq emote_atoms (drop k s)) as [cs|] eqn:M;
    [|discriminate H].
  apply emote_match_inv
    in M as (animated & name & id & post & Hn & Hname & Hi & Hid & Hd & _).
  exfalso. apply (Hs (take k s) (emote_token animated name id) post).
  - by rewrite emote_token_cons, <- app_comm_cons, <- Hd, take_drop.
  - by exists animated, name, id.
Qed.

(** X23.  [formatEmotes] turns the token [<:name:id>], and the animated
    [<a:name:id>], wherever it stands in the body, into [:name:], for a
    name of word characters and an id of digits; the text before and the
    text after are normalised on their own, and text that holds no emote
    token is returned as it is. *)
Theorem formatEmotes_tokens pre post animated name id :
  name ≠ [] → Forall (λ c, isWord c = true) name →
  id ≠ [] → Forall (λ c, isDigit c = true) id →
  formatEmotes (pre ++ emote_token animated name id ++ post)
  = formatEmotes pre ++ str ":" ++ name ++ str ":" ++ formatEmotes post ∧
  (token_free pre → token_free post →
   formatEmotes (pre ++ emote_token animated name id ++ post)
   = pre ++ str ":" ++ name ++ str ":" ++ post).
Proof.
  intros Hn Hname Hi Hid.
  pose proof (formatEmotes_token pre post animated name id Hn Hname Hi Hid)
    as H.
  split; [done|]. intros Hpre Hpost.
  by rewrite H, !formatEmotes_token_free.
Qed.

Lemma formatEmotes_tokens_witness :
  formatEmotes (str "see " ++ emote_token false (str "party_1") (str "42")
                ++ str " and <a:wave:7>!")
  = formatEmotes (str "see ") ++ str ":" ++ str "party_1" ++ str ":"
    ++ formatEmotes (str " and <a:wave:7>!").
Proof.
  destruct (formatEmotes_tokens (str "see ") (str " and <a:wave:7>!") false
              (str "party_1") (str "42")) as [H _];
    [discriminate | repeat constructor | discriminate | repeat constructor|].
  exact H.
Defined.

(** The older revision rewrites one matched text after the other, each
    time in the whole body: a token that appears only once an earlier one
    is rewritten is rewritten too. *)
Lemma legacy_replaceEmotes_nested :
  Legacy.replaceEmotes Sample.nested_emotes = str ":x: :x:" ∧
  formatEmotes Sample.nested_emotes = str "<:x:5> :x:".
Proof. split; vm_compute; reflexivity. Qed.

(** C5.  In the older revision the text after the last mention token is
    not in the rich body: for the direct message "<@id> hi" the rich body
    is an empty string and the mention, while the body without its mention
    token is " hi".  The current revision keeps the text. *)
Theorem legacy_mentions_drop_tail :
  let m := Sample.message Sample.alice Sample.dm Sample.mention_then_text
             [MentionUser Sample.alice] in
  let mention :=
    Span (str "user-100000000000000002") (Some (str "@alice")) in
  (∃ n, Legacy.MESSAGE_CREATE Sample.host Sample.cfg Sample.st m
        = Ok (Some n) ∧
        richBody n = Some [Text []; mention] ∧
        body n = Sample.mention_then_text) ∧
  texts [Text []; mention] = [] ∧
  removeMentions Sample.mention_then_text = str " hi" ∧
  parseMentions Sample.host Sample.mention_then_text Sample.dm
  = Ok [Text []; mention; Text (str " hi")].
Proof.
  split_and!; [eexists; split_and!|..]; vm_compute; reflexivity.
Qed.
(* ================================================================== *)
(** * Truncation *)
(* ================================================================== *)

Lemma substring_0 s n : substring s 0 n = take n s.
Proof.
  unfold substring. simpl. rewrite Nat.sub_0_r, drop_0.
  destruct (decide (n ≤ length s)).
  - by rewrite Nat.min_l.
  - rewrite Nat.min_r by lia. by rewrite !take_ge by lia.
Qed.

(** C4.  With attachments the limit is 30 characters, without them 165.
    A body longer than the limit is cut to the limit: its first limit - 3
    characters followed by an ellipsis; a body within the limit is returned
    unchanged; so the body is changed exactly when it is longer than the
    limit.  The older revision has the same function. *)
Theorem limitMessageLength_spec body hasAttachments :
  let out := limitMessageLength body hasAttachments in
  let limit := if hasAttachments then 30 else 165 in
  (limit < length body →
     out = take (limit - 3) body ++ ELLIPSIS ∧
     length out = limit ∧ ends_in out ELLIPSIS) ∧
  (length body ≤ limit → out = body) ∧
  (out ≠ body ↔ limit < length body).
Proof.
  assert (HE : length ELLIPSIS = 3) by reflexivity.
  unfold limitMessageLength.
  destruct hasAttachments; simpl.
  - destruct (30 <? length body) eqn:E.
    + apply Nat.ltb_lt in E. rewrite substring_0. split_and!.
      * intros _. split_and!; [done| |by eexists].
        rewrite length_app, length_take, HE. lia.
      * lia.
      * split; [done|]. intros _ Heq. apply (f_equal length) in Heq.
        rewrite length_app, length_take, HE in Heq. lia.
    + apply Nat.ltb_ge in E.
      destruct (165 <? length body) eqn:E2; [apply Nat.ltb_lt in E2; lia|].
      split_and!; [lia|done|]. split; [done|lia].
  - destruct (165 <? length body) eqn:E.
    + apply Nat.ltb_lt in E. rewrite substring_0. split_and!.
      * intros _. split_and!; [done| |by eexists].
        rewrite length_app, length_take, HE. lia.
      * lia.
      * split; [done|]. intros _ Heq. apply (f_equal length) in Heq.
        rewrite length_app, length_take, HE in Heq. lia.
    + apply Nat.ltb_ge in E. split_and!; [lia|done|]. split; [done|lia].
Qed.
(* ================================================================== *)
(** * Eligibility of guild messages *)
(* ================================================================== *)

Lemma findNotificationLevel_all h cfg channel :
  findNotificationLevel h cfg channel = ALL_MESSAGES →
  effective_level h channel = ALL_MESSAGES.
Proof.
  unfold findNotificationLevel, effective_level.
  destruct (_ || _); [done|].
  destruct (userGuildSettings h !! _) as [ugs|]; [|done].
  destruct (_ ≫= co_message_notifications); [done|].
  by destruct (message_notifications ugs).
Qed.

Lemma handleGuildMessage_shown h cfg st m n :
  handleGuildMessage h cfg st m = Ok (Some n) →
  ∃ ch, getChannel h (msg_channel_id m) = Some ch ∧
    (msg_channel_id m ∈ notifyFor st
     ∨ (isFriend h (user_id (author m)) = true
        ∧ friendServerNotifications cfg = true)
     ∨ effective_level h ch = ALL_MESSAGES
     ∨ contains (content m) (mention_token (user_id (getCurrentUser h)))).
Proof.
  unfold handleGuildMessage.
  destruct (getChannel h (msg_channel_id m)) as [ch|]; simpl; [|done].
  intros H. exists ch. split; [done|].
  destruct (array_includes (notifyFor st) (msg_channel_id m)) eqn:A.
  { left. by apply array_includes_elem. }
  destruct (friendServerNotifications cfg) eqn:F,
           (isFriend h (user_id (author m))) eqn:I; simpl in H;
    try (right; left; done).
  all: right; right.
  all: destruct (findNotificationLevel h cfg ch =? NO_MESSAGES)%Z eqn:N;
    simpl in H; [done|].
  all: destruct (findNotificationLevel h cfg ch =? ALL_MESSAGES)%Z eqn:L;
    simpl in H;
    [left; apply (findNotificationLevel_all h cfg); by apply Z.eqb_eq|].
  all: destruct (includes _ _) eqn:M; simpl in H; [|done].
  all: right; by apply includes_contains.
Qed.

Lemma legacy_handleGuildMessage_shown h cfg st m n :
  Legacy.handleGuildMessage h cfg st m = Ok (Some n) →
  msg_channel_id m ∈ notifyFor st
  ∨ (isFriend h (user_id (author m)) = true
     ∧ friendServerNotifications cfg = true).
Proof.
  unfold Legacy.handleGuildMessage.
  destruct (array_includes (notifyFor st) (msg_channel_id m)) eqn:A.
  { left. by apply array_includes_elem. }
  destruct (friendServerNotifications cfg) eqn:F,
           (isFriend h (user_id (author m))) eqn:I; simpl; try done.
  by right.
Qed.

Lemma MESSAGE_CREATE_guild h cfg st m ch n :
  getChannel h (msg_channel_id m) = Some ch →
  truthy (guild_id ch) = true →
  MESSAGE_CREATE h cfg st m = Ok (Some n) →
  handleGuildMessage h cfg st m = Ok (Some n).
Proof.
  intros Hch Hg. unfold MESSAGE_CREATE. rewrite Hch. simpl. rewrite Hg.
  repeat (case_match; try done).
Qed.

Lemma legacy_MESSAGE_CREATE_guild h cfg st m ch n :
  getChannel h (msg_channel_id m) = Some ch →
  truthy (guild_id ch) = true →
  Legacy.MESSAGE_CREATE h cfg st m = Ok (Some n) →
  Legacy.handleGuildMessage h cfg st m = Ok (Some n).
Proof.
  intros Hch Hg. unfold Legacy.MESSAGE_CREATE. rewrite Hch. simpl. rewrite Hg.
  repeat (case_match; try done). apply not_awaited_Some.
Qed.

(** C1. A guild-channel message that got past the global checks is shown
    only if its channel is in the always-notify list, or its author is a
    friend and friend-server notifications are on, or the effective
    notification level is "all messages", or its text contains the mention
    token of the current user.  Both revisions. *)
Theorem guild_message_shown_only_if h cfg st m ch n :
  getChannel h (msg_channel_id m) = Some ch →
  truthy (guild_id ch) = true →
  MESSAGE_CREATE h cfg st m = Ok (Some n)
  ∨ Legacy.MESSAGE_CREATE h cfg st m = Ok (Some n) →
  msg_channel_id m ∈ notifyFor st
  ∨ (isFriend h (user_id (author m)) = true
     ∧ friendServerNotifications cfg = true)
  ∨ effective_level h ch = ALL_MESSAGES
  ∨ contains (content m) (mention_token (user_id (getCurrentUser h))).
Proof.
  intros Hch Hg [H|H].
  - apply (MESSAGE_CREATE_guild _ _ _ _ _ _ Hch Hg) in H.
    apply handleGuildMessage_shown in H as (ch' & Hch' & H).
    by simplify_eq.
  - apply (legacy_MESSAGE_CREATE_guild _ _ _ _ _ _ Hch Hg) in H.
    apply legacy_handleGuildMessage_shown in H as [H|H];
      [by left | by right; left].
Qed.

Lemma MESSAGE_CREATE_own_message h cfg st m :
  user_id (author m) = user_id (getCurrentUser h) →
  MESSAGE_CREATE h cfg st m = Ok None.
Proof.
  intros Heq. unfold MESSAGE_CREATE. rewrite Heq, str_eqb_refl.
  by rewrite !orb_true_r.
Qed.

Lemma legacy_MESSAGE_CREATE_own_private h cfg st m ch :
  user_id (author m) = user_id (getCurrentUser h) →
  getChannel h (msg_channel_id m) = Some ch →
  truthy (guild_id ch) = false →
  Legacy.MESSAGE_CREATE h cfg st m = Ok None.
Proof.
  intros Heq Hch Hg. unfold Legacy.MESSAGE_CREATE.
  rewrite Hch, Heq, str_eqb_refl. simpl. rewrite Hg.
  by destruct (_ && _).
Qed.

(** C2.  The older revision hands a guild message to its guild handler
    before it compares the author with the current user: a message the
    current user writes in an always-notify guild channel is shown.  The
    current revision shows nothing for it. *)
Theorem legacy_own_guild_message_shown :
  user_id (author Sample.own_message)
  = user_id (getCurrentUser Sample.host) ∧
  (∃ n, Legacy.MESSAGE_CREATE Sample.host Sample.cfg Sample.st
          Sample.own_message = Ok (Some n)) ∧
  MESSAGE_CREATE Sample.host Sample.cfg Sample.st Sample.own_message
  = Ok None.
Proof.
  split; [reflexivity|]. split.
  - eexists. vm_compute. reflexivity.
  - vm_compute. reflexivity.
Qed.

(* ================================================================== *)
(** * Redaction *)
(* ================================================================== *)

Lemma redaction_on_true h cfg :
  (∃ k, activeStreams h = Some k ∧ 1 ≤ k)
  ∧ streamingTreatment cfg = NO_CONTENT
  ∨ disableMessageBody cfg = true →
  redaction_on h cfg = true.
Proof.
  unfold redaction_on, isStreaming. intros [[(k & -> & Hk) ->]| ->].
  - apply Nat.leb_le in Hk. by rewrite Hk.
  - by rewrite orb_true_r.
Qed.

Lemma handleGuildMessage_redacted h cfg st m n :
  redaction_on h cfg = true →
  handleGuildMessage h cfg st m = Ok (Some n) →
  body n = REDACTED ∧ richBody n = None.
Proof.
  intros Hr. unfold handleGuildMessage. rewrite Hr.
  destruct (getChannel h _); simpl; [|done].
  destruct (_ && _); [done|].
  destruct (buildNotificationData _ _ _ _); simpl; [|done].
  by intros [= <-].
Qed.

Lemma MESSAGE_CREATE_redacted h cfg st m n :
  redaction_on h cfg = true →
  MESSAGE_CREATE h cfg st m = Ok (Some n) →
  body n = REDACTED ∧ richBody n = None.
Proof.
  intros Hr. unfold MESSAGE_CREATE. rewrite Hr.
  destruct (_ || _); [done|].
  destruct (getChannel h _); simpl; [|done].
  destruct (_ || _); [done|].
  destruct (truthy _); [by apply handleGuildMessage_redacted|].
  destruct (_ || _); [done|].
  destruct (buildNotificationData _ _ _ _); simpl; [|done].
  by intros [= <-].
Qed.

(** C3.  While a screenshare is active under the "no content" treatment, or
    when every message body is to be redacted, a toast that is shown has
    the fixed redaction text as its body and no rich body; two messages
    that differ in their text only give toasts with the same body and the
    same rich body. *)
Theorem redaction_hides_content h cfg st m c n1 n2 :
  (∃ k, activeStreams h = Some k ∧ 1 ≤ k)
  ∧ streamingTreatment cfg = NO_CONTENT
  ∨ disableMessageBody cfg = true →
  MESSAGE_CREATE h cfg st m = Ok (Some n1) →
  MESSAGE_CREATE h cfg st (with_content m c) = Ok (Some n2) →
  body n1 = REDACTED ∧ richBody n1 = None ∧
  body n2 = body n1 ∧ richBody n2 = richBody n1.
Proof.
  intros Hr%redaction_on_true H1 H2.
  apply (MESSAGE_CREATE_redacted _ _ _ _ _ Hr) in H1 as [-> ->].
  by apply (MESSAGE_CREATE_redacted _ _ _ _ _ Hr) in H2 as [-> ->].
Qed.

(* ================================================================== *)
(** * Order of the post-processing steps *)
(* ================================================================== *)

(** C6, as the code has it.  [buildNotificationData] normalises the emotes
    first; the plain body is the truncation of the normalised text, and the
    rich body is the mention split of the normalised text before
    truncation. *)
Theorem post_processing_order h m ch c n :
  buildNotificationData h m ch c = Ok n →
  ∃ raw,
    getNotificationBody h m ch = Ok raw ∧
    body n = limitMessageLength (formatEmotes raw)
               (0 <? length (attachments m)) ∧
    rich_from h m ch (formatEmotes raw) = Ok (richBody n).
Proof.
  unfold buildNotificationData, rich_from.
  destruct (getNotificationBody h m ch) as [raw|]; simpl; [|done].
  intros H. exists raw. split; [done|].
  destruct (_ || _).
  - destruct (parseMentions h (formatEmotes raw) ch) as [els|]; simpl in *;
      [|done].
    injection H as <-. destruct (images_of m); by destruct els.
  - simpl in H. injection H as <-. by destruct (images_of m).
Qed.

(** C6, as the claim has it, fails: for a long text with a mention the rich
    body is not the mention split of the truncated body. *)
Lemma rich_body_not_from_truncated_body :
  ∃ n,
    buildNotificationData Sample.host Sample.long_message Sample.general
      (SwitchChannels None []) = Ok n ∧
    rich_from Sample.host Sample.long_message Sample.general (body n)
    ≠ Ok (richBody n).
Proof.
  eexists. split; [vm_compute; reflexivity|]. vm_compute. discriminate.
Qed.

Lemma legacy_post_processing_order h m ch title0 body0 c n :
  Legacy.finish h m ch title0 body0 c = Ok (Some n) →
  let text := Legacy.replaceEmotes (Legacy.mediaBody m body0).1 in
  body n = limitMessageLength text (0 <? length (attachments m)) ∧
  ∃ els, Legacy.replaceMentions h m text ch = Ok els ∧
         richBody n = match els with [] => None | _ => Some els end.
Proof.
  unfold Legacy.finish. destruct (Legacy.mediaBody m body0) as [text img].
  simpl. destruct (Legacy.replaceMentions _ _ _ _) as [els|]; simpl; [|done].
  intros [= <-]. simpl. split; [done|]. exists els. split; [done|].
  by destruct els.
Qed.

(* ================================================================== *)
(** * The title of a group DM *)
(* ================================================================== *)

(** C7, as the code has it.  In a group DM the title is the author's
    username followed by the label in parentheses; the label is the trimmed
    channel name if something is left of it, else the usernames of the
    first three recipients joined by ", "; it is cut to 20 characters with
    an ellipsis appended when it is longer.  Both revisions. *)
Theorem group_dm_title h m ch recipients :
  isGroupDM ch = true →
  rawRecipients ch = Some recipients
  ∨ (∃ c n, trim <$> channel_name ch = Some (c :: n)) →
  let label := trimmed_label ch recipients in
  getNotificationTitle h m ch = group_title m label ∧
  Legacy.groupTitle m ch = Ok (group_title m label) ∧
  (length label ≤ 20 → clip20 label = label) ∧
  (20 < length label → clip20 label = take 20 label ++ ELLIPSIS).
Proof.
  intros Hg Hr label. split_and!.
  - unfold getNotificationTitle, group_title, truncate_name, clip20.
    rewrite Hg. subst label. unfold trimmed_label.
    destruct Hr as [->|(c & n & ->)].
    + by destruct (trim <$> channel_name ch) as [[|x l]|];
        cbn [fmap option_fmap option_map tmpl default];
        rewrite substring_0.
    + cbn [tmpl default]. by rewrite substring_0.
  - unfold Legacy.groupTitle, group_title, clip20.
    subst label. unfold trimmed_label.
    destruct Hr as [->|(c & n & ->)].
    + by destruct (trim <$> channel_name ch) as [[|x l]|];
        cbn [mbind result_bind deref]; rewrite substring_0.
    + cbn [mbind result_bind]. by rewrite substring_0.
  - intros Hl. unfold clip20. apply Nat.ltb_ge in Hl. by rewrite Hl.
  - intros Hl. unfold clip20. apply Nat.ltb_lt in Hl. by rewrite Hl.
Qed.

(** C7, as the claim has it, fails: a channel name with a leading space is
    not the label. *)
Lemma group_dm_title_not_the_name :
  isGroupDM Sample.group = true ∧
  getNotificationTitle Sample.host
    (Sample.message Sample.alice Sample.group (str "hi") []) Sample.group
  ≠ group_title (Sample.message Sample.alice Sample.group (str "hi") [])
      (named_label Sample.group [Sample.alice; Sample.bob]).
Proof. split; [reflexivity|]. vm_compute. discriminate. Qed.

(* ================================================================== *)
(** * Relationship events *)
(* ================================================================== *)

Lemma array_includes_not_elem l x : x ∉ l → array_includes l x = false.
Proof.
  intros Hx. destruct (array_includes l x) eqn:E; [|done].
  by apply array_includes_elem in E.
Qed.

(** X24.  With friend-activity notifications on, the other user not
    ignored and held by the user store, a new friend gives the title
    "<username> is now your friend", an incoming request gives
    "<username> sent you a friend request", and every other relationship
    type gives no toast; the username is the one the user store holds for
    the user.  Both revisions. *)
Theorem relationship_titles h cfg st user stored :
  friendActivity cfg = true →
  user_id user ∉ ignoredUsers st →
  getUser h (user_id user) = Some stored →
  (∃ n, RELATIONSHIP_ADD h cfg st user FRIEND = Ok (Some n) ∧
        title n = username stored ++ str " is now your friend") ∧
  (∃ n, RELATIONSHIP_ADD h cfg st user INCOMING_REQUEST = Ok (Some n) ∧
        title n = username stored ++ str " sent you a friend request") ∧
  RELATIONSHIP_ADD h cfg st user OTHER_RELATIONSHIP = Ok None ∧
  (∃ n, Legacy.RELATIONSHIP_ADD h cfg st user FRIEND = Ok (Some n) ∧
        title n = username stored ++ str " is now your friend") ∧
  (∃ n, Legacy.RELATIONSHIP_ADD h cfg st user INCOMING_REQUEST
        = Ok (Some n) ∧
        title n = username stored ++ str " sent you a friend request") ∧
  Legacy.RELATIONSHIP_ADD h cfg st user OTHER_RELATIONSHIP = Ok None.
Proof.
  intros Hf Hi%array_includes_not_elem Hu.
  unfold RELATIONSHIP_ADD, Legacy.RELATIONSHIP_ADD,
    relationshipAdd, Legacy.relationshipAdd.
  rewrite Hi, Hf, Hu. simpl.
  split_and!; try done; eexists; split; reflexivity.
Qed.

(** C8.  [relationshipAdd] replaces the user of the event by the entry of
    the user store and reads its avatar and username without a check.  For
    a new friend, or an incoming request, of a user the store does not
    hold, it throws before a toast is built and [RELATIONSHIP_ADD] shows
    nothing, although friend-activity notifications are on and the user is
    not ignored.  Both revisions.  [addMention] reads the same store with a
    fallback name. *)
Theorem relationship_unknown_user_no_toast :
  friendActivity Sample.cfg = true ∧
  (user_id Case.carol ∉ ignoredUsers Sample.st) ∧
  getUser Sample.host (user_id Case.carol) = None ∧
  relationshipAdd Sample.host Sample.cfg Case.carol FRIEND = Throw ∧
  relationshipAdd Sample.host Sample.cfg Case.carol INCOMING_REQUEST
  = Throw ∧
  RELATIONSHIP_ADD Sample.host Sample.cfg Sample.st Case.carol FRIEND
  = Ok None ∧
  RELATIONSHIP_ADD Sample.host Sample.cfg Sample.st Case.carol
    INCOMING_REQUEST = Ok None ∧
  Legacy.relationshipAdd Sample.host Sample.cfg Case.carol FRIEND = Throw ∧
  Legacy.relationshipAdd Sample.host Sample.cfg Case.carol INCOMING_REQUEST
  = Throw ∧
  Legacy.RELATIONSHIP_ADD Sample.host Sample.cfg Sample.st Case.carol FRIEND
  = Ok None ∧
  Legacy.RELATIONSHIP_ADD Sample.host Sample.cfg Sample.st Case.carol
    INCOMING_REQUEST = Ok None ∧
  addMention Sample.host (user_id Case.carol) KUser None
  = Ok (Span (str "user-100000000000000009") (Some (str "@unknown-user"))).
Proof.
  split; [reflexivity|]. split; [apply not_elem_of_nil|].
  split_and!; vm_compute; reflexivity.
Qed.

(* ================================================================== *)
(** * Click handlers *)
(* ================================================================== *)

Lemma switchChannels_absent h guildId channelId :
  hasChannel h channelId = false → switchChannels h guildId channelId = [].
Proof. unfold switchChannels. by intros ->. Qed.

Lemma buildNotificationData_onClick h m ch c n :
  buildNotificationData h m ch c = Ok n → onClick n = Some c.
Proof.
  unfold buildNotificationData.
  destruct (getNotificationBody h m ch); simpl; [|done].
  destruct (if _ || _ then _ else _); simpl; [|done].
  intros [= <-]. by destruct (images_of m).
Qed.

Lemma handleGuildMessage_onClick h cfg st m n :
  handleGuildMessage h cfg st m = Ok (Some n) →
  ∃ ch, getChannel h (msg_channel_id m) = Some ch ∧
        onClick n = Some (SwitchChannels (guild_id ch) (channel_id ch)).
Proof.
  unfold handleGuildMessage.
  destruct (getChannel h _) as [ch|]; simpl; [|done].
  destruct (_ && _); [done|].
  destruct (buildNotificationData _ _ _ _) as [n'|] eqn:B; simpl; [|done].
  apply buildNotificationData_onClick in B.
  intros [= <-]. exists ch. split; [done|]. by destruct (redaction_on h cfg).
Qed.

Lemma legacy_handleGuildMessage_onClick h cfg st m n :
  Legacy.handleGuildMessage h cfg st m = Ok (Some n) →
  ∃ ch, getChannel h (msg_channel_id m) = Some ch ∧
        onClick n = Some (SwitchChannels (guild_id ch) (channel_id ch)).
Proof.
  unfold Legacy.handleGuildMessage, Legacy.finish.
  destruct (negb _); [done|].
  destruct (getChannel h _) as [ch|]; simpl; [|done].
  destruct (Legacy.mediaBody _ _) as [text img].
  destruct (Legacy.replaceMentions _ _ _ _); simpl; [|done].
  intros [= <-]. by exists ch.
Qed.

Lemma relationshipAdd_onClick h cfg user type n :
  relationshipAdd h cfg user type = Ok (Some n)
  ∨ Legacy.relationshipAdd h cfg user type = Ok (Some n) →
  ∃ stored, getUser h (user_id user) = Some stored ∧
    onClick n = Some (SwitchChannels None
                        match type with
                        | FRIEND => user_id stored
                        | _ => []
                        end).
Proof.
  unfold relationshipAdd, Legacy.relationshipAdd.
  destruct (negb _); [by intros [|]|].
  destruct (getUser h _) as [stored|]; simpl; [|by intros [|]].
  intros H. exists stored. split; [done|].
  destruct type, H as [H|H]; by simplify_eq.
Qed.

(** C10.  A click on the toast of a guild message, of a new friend or of an
    incoming request navigates only when the channel store has the target
    channel id, and does nothing at all otherwise; the target of a
    new-friend toast is the id of that user. *)
Theorem route_click_checks_channel h cfg st m user type n :
  routed h cfg st m user type n →
  ∃ guildId target,
    onClick n = Some (SwitchChannels guildId target) ∧
    (∀ h', hasChannel h' target = false → run_click h' n = []) ∧
    (∀ stored,
       type = FRIEND →
       relationshipAdd h cfg user type = Ok (Some n)
       ∨ Legacy.relationshipAdd h cfg user type = Ok (Some n) →
       getUser h (user_id user) = Some stored → target = user_id stored).
Proof.
  intros H.
  assert (∃ guildId target, onClick n = Some (SwitchChannels guildId target))
    as (guildId & target & Hc).
  { destruct H as [H|[H|H]].
    - apply handleGuildMessage_onClick in H as (ch & _ & ->). eauto.
    - apply legacy_handleGuildMessage_onClick in H as (ch & _ & ->). eauto.
    - apply relationshipAdd_onClick in H as (s & _ & ->). eauto. }
  exists guildId, target. split_and!; [done|..].
  - intros h' Hh. unfold run_click. rewrite Hc. simpl.
    by apply switchChannels_absent.
  - intros stored -> Hr Hs.
    apply relationshipAdd_onClick in Hr as (s & Hs' & Hc').
    by simplify_eq.
Qed.

(* ================================================================== *)
(** * The theorems at sample inputs *)
(* ================================================================== *)

(** The scenario of the specification: a friend writes
    "hello <@111111111111111111> check <#222222222222222222>" in a guild
    channel. *)
Example scenario_rich_body :
  parseMentions Sample.host
    (str "hello <@111111111111111111> check <#222222222222222222>")
    Sample.general
  = Ok [ Text (str "hello ");
         Span (str "user-111111111111111111") (Some (str "@unknown-user"));
         Text (str " check ");
         Span (str "channel-222222222222222222")
              (Some (str "#unknown-channel")) ].
Proof. vm_compute. reflexivity. Qed.

Lemma guild_message_shown_only_if_witness :
  let m := Sample.message Sample.alice Sample.general (str "hello") [] in
  msg_channel_id m ∈ notifyFor Sample.st
  ∨ (isFriend Sample.host (user_id (author m)) = true
     ∧ friendServerNotifications Sample.cfg = true)
  ∨ effective_level Sample.host Sample.general = ALL_MESSAGES
  ∨ contains (content m)
      (mention_token (user_id (getCurrentUser Sample.host))).
Proof.
  intros m.
  eapply (guild_message_shown_only_if Sample.host Sample.cfg Sample.st m
            Sample.general);
    [reflexivity | reflexivity | left; vm_compute; reflexivity].
Defined.

Lemma redaction_hides_content_witness :
  ∃ n1 n2,
    MESSAGE_CREATE Sample.host Sample.cfg_redact Sample.st
      (Sample.message Sample.alice Sample.general (str "hello") [])
    = Ok (Some n1) ∧
    MESSAGE_CREATE Sample.host Sample.cfg_redact Sample.st
      (with_content
         (Sample.message Sample.alice Sample.general (str "hello") [])
         (str "bye"))
    = Ok (Some n2) ∧
    body n1 = REDACTED ∧ richBody n1 = None ∧
    body n2 = body n1 ∧ richBody n2 = richBody n1.
Proof.
  do 2 eexists.
  assert (H1 : ∀ a b : Prop, a → (a → b) → a ∧ b)
    by (intros a b Ha Hb; auto).
  apply H1; [vm_compute; reflexivity|]. intros E1.
  apply H1; [vm_compute; reflexivity|]. intros E2.
  apply (redaction_hides_content Sample.host Sample.cfg_redact Sample.st
           (Sample.message Sample.alice Sample.general (str "hello") [])
           (str "bye"));
    [right; reflexivity | exact E1 | exact E2].
Defined.

Lemma post_processing_order_witness :
  ∃ n raw,
    getNotificationBody Sample.host Sample.long_message Sample.general
    = Ok raw ∧
    body n = limitMessageLength (formatEmotes raw)
               (0 <? length (attachments Sample.long_message)) ∧
    rich_from Sample.host Sample.long_message Sample.general
      (formatEmotes raw) = Ok (richBody n).
Proof.
  eexists.
  eapply (post_processing_order Sample.host Sample.long_message
            Sample.general (SwitchChannels None [])).
  vm_compute. reflexivity.
Defined.

Lemma group_dm_title_witness :
  getNotificationTitle Sample.host
    (Sample.message Sample.alice Sample.group (str "hi") []) Sample.group
  = str "alice (team)".
Proof.
  destruct (group_dm_title Sample.host
              (Sample.message Sample.alice Sample.group (str "hi") [])
              Sample.group [Sample.alice; Sample.bob])
    as (H & _); [reflexivity | left; reflexivity |].
  rewrite H. vm_compute. reflexivity.
Defined.

Lemma relationship_titles_witness :
  ∃ n, RELATIONSHIP_ADD Sample.host Sample.cfg Sample.st Sample.alice FRIEND
       = Ok (Some n) ∧
       title n = str "alice is now your friend".
Proof.
  destruct (relationship_titles Sample.host Sample.cfg Sample.st
              Sample.alice Sample.alice) as (H & _);
    [reflexivity | apply not_elem_of_nil | reflexivity |].
  exact H.
Defined.

Lemma route_click_checks_channel_witness :
  ∃ n,
    relationshipAdd Sample.host Sample.cfg Sample.alice FRIEND
    = Ok (Some n) ∧
    ∃ guildId target,
      onClick n = Some (SwitchChannels guildId target) ∧
      target = user_id Sample.alice ∧
      run_click Sample.host n = [].
Proof.
  eexists.
  assert (H1 : ∀ a b : Prop, a → (a → b) → a ∧ b)
    by (intros a b Ha Hb; auto).
  apply H1; [vm_compute; reflexivity|]. intros E.
  destruct (route_click_checks_channel Sample.host Sample.cfg Sample.st
              Sample.own_message Sample.alice FRIEND _
              (or_intror (or_intror (or_introl E))))
    as (guildId & target & Hc & Hclick & Htarget).
  exists guildId, target.
  pose proof (Htarget Sample.alice eq_refl (or_introl E) eq_refl) as Ht.
  split_and!; [exact Hc | exact Ht |].
  apply Hclick. rewrite Ht. reflexivity.
Defined.

Lemma limitMessageLength_spec_witness :
  limitMessageLength (replicate 31 (chr "a")) true
  = replicate 27 (chr "a") ++ ELLIPSIS.
Proof.
  destruct (limitMessageLength_spec (replicate 31 (chr "a")) true)
    as ([H _] & _); [vm_compute; lia|].
  rewrite H. reflexivity.
Defined.

(* ================================================================== *)
(** * The id lists of the settings *)
(* ================================================================== *)

Lemma split_on_nonempty sep s : split_on sep s ≠ [].
Proof.
  induction s as [|c s IH]; simpl; [done|].
  destruct (c =? sep)%N; [done|]. by destruct (split_on sep s).
Qed.

Lemma join_split_on sep s : join [sep] (split_on sep s) = s.
Proof.
  induction s as [|c s IH]; simpl; [done|].
  pose proof (split_on_nonempty sep s) as Hne.
  destruct (c =? sep)%N eqn:E.
  - apply N.eqb_eq in E as ->.
    destruct (split_on sep s) as [|p ps]; [done|]. simpl in *. by rewrite IH.
  - destruct (split_on sep s) as [|p ps]; [done|].
    destruct ps as [|q ps]; simpl in *; by rewrite <- IH.
Qed.

Lemma split_on_free sep s :
  Forall (λ p, Forall (λ c, c ≠ sep) p) (split_on sep s).
Proof.
  induction s as [|c s IH]; simpl; [by repeat constructor|].
  destruct (c =? sep)%N eqn:E.
  - by constructor.
  - apply N.eqb_neq in E.
    destruct (split_on sep s) as [|p ps]; [by repeat constructor|].
    apply Forall_cons in IH as [Hp Hps]. by repeat constructor.
Qed.

Lemma split_on_whole sep s :
  Forall (λ c, c ≠ sep) s → split_on sep s = [s].
Proof.
  induction 1 as [|c s Hc _ IH]; simpl; [done|].
  apply N.eqb_neq in Hc. by rewrite Hc, IH.
Qed.

Lemma split_on_join sep ids :
  ids ≠ [] → Forall (λ p, Forall (λ c, c ≠ sep) p) ids →
  split_on sep (join [sep] ids) = ids.
Proof.
  intros Hne Hall. induction Hall as [|p ps Hp Hps IH]; [done|].
  destruct ps as [|q ps].
  - simpl. by apply split_on_whole.
  - change (join [sep] (p :: q :: ps)) with (p ++ sep :: join [sep] (q :: ps)).
    rewrite split_on_sep by done. by rewrite IH.
Qed.

Lemma filter_join_ids ids :
  Forall clean_id ids →
  filter (λ c, isSpace c = false) (join (str ", ") ids) = join (str ",") ids.
Proof.
  assert (Hid : ∀ id, clean_id id → filter (λ c, isSpace c = false) id = id).
  { intros id [_ Hid]. induction Hid as [|c id [Hc _] _ IH]; [done|].
    rewrite filter_cons_True by done. by rewrite IH. }
  induction 1 as [|p ps Hp Hps IH]; [done|].
  destruct ps as [|q ps]; [by apply Hid|].
  change (join (str ", ") (p :: q :: ps))
    with (p ++ str ", " ++ join (str ", ") (q :: ps)).
  change (join (str ",") (p :: q :: ps))
    with (p ++ str "," ++ join (str ",") (q :: ps)).
  rewrite !filter_app, IH, (Hid p Hp). done.
Qed.

(** X1.  [stringToList]: the empty setting gives the empty list; for any
    other setting the entries, joined by commas again, are the setting
    without its whitespace; no entry holds whitespace or a comma; and there
    is at least one entry (a setting of blanks gives one empty entry). *)
Theorem stringToList_entries s :
  stringToList [] = [] ∧
  (s ≠ [] →
   join (str ",") (stringToList s) = filter (λ c, isSpace c = false) s ∧
   stringToList s ≠ []) ∧
  Forall (λ id, Forall (λ c, isSpace c = false ∧ c ≠ chr ",") id)
         (stringToList s).
Proof.
  split; [done|]. split.
  - intros Hs. destruct s as [|c s]; [done|]. unfold stringToList. split.
    + apply (join_split_on (chr ",")).
    + apply split_on_nonempty.
  - destruct s as [|c s]; [constructor|]. unfold stringToList.
    pose proof (split_on_free (chr ",")
                  (filter (λ c, isSpace c = false) (c :: s))) as Hfree.
    pose proof (join_split_on (chr ",")
                  (filter (λ c, isSpace c = false) (c :: s))) as Hjoin.
    assert (Hsp : Forall (λ c, isSpace c = false)
                    (filter (λ c, isSpace c = false) (c :: s))).
    { apply Forall_forall. by intros x [Hx _]%list_elem_of_filter. }
    rewrite <- Hjoin in Hsp. clear Hjoin.
    induction Hfree as [|p ps Hp Hps IH]; [constructor|].
    constructor.
    + apply Forall_forall. intros x Hx. split.
      * rewrite Forall_forall in Hsp. apply Hsp.
        destruct ps; simpl; [done|]. apply elem_of_app. by left.
      * rewrite Forall_forall in Hp. by apply Hp.
    + apply IH. destruct ps as [|q ps]; [constructor|].
      change (join [chr ","] (p :: q :: ps))
        with (p ++ [chr ","] ++ join [chr ","] (q :: ps)) in Hsp.
      apply Forall_app in Hsp as [_ Hsp]. by apply Forall_app in Hsp as [_ Hsp].
Qed.

Lemma stringToList_entries_witness :
  join (str ",") (stringToList (str " 12, 34 ,5")) = str "12,34,5".
Proof.
  destruct (stringToList_entries (str " 12, 34 ,5")) as (_ & H & _).
  destruct H as [H _]; [discriminate|]. rewrite H. vm_compute. reflexivity.
Defined.

Lemma stringToList_join_ids ids :
  ids ≠ [] → Forall clean_id ids →
  stringToList (join (str ", ") ids) = ids.
Proof.
  intros Hne Hall. unfold stringToList.
  destruct (join (str ", ") ids) as [|c s] eqn:J.
  - destruct Hall as [|p ps [Hp _] _]; [done|].
    destruct p; [done|]. by destruct ps.
  - rewrite <- J, filter_join_ids by done.
    apply (split_on_join (chr ",")); [done|].
    eapply Forall_impl; [done|]. intros id [_ Hid].
    eapply Forall_impl; [done|]. by intros c' [_ Hc].
Qed.

(** X2.  A list of ids written with ", " between them is read back by
    [stringToList] as these ids, when each id is not empty and holds no
    whitespace and no comma. *)
Theorem stringToList_join ids :
  ids ≠ [] → Forall clean_id ids →
  stringToList (join (str ", ") ids) = ids.
Proof. apply stringToList_join_ids. Qed.

Lemma stringToList_join_witness :
  stringToList (str "300000000000000001, 42") =
  [str "300000000000000001"; str "42"].
Proof.
  apply (stringToList_join [str "300000000000000001"; str "42"]).
  - discriminate.
  - repeat constructor; discriminate.
Defined.

(* ================================================================== *)
(** * More on the mention split *)
(* ================================================================== *)

Lemma USER_MENTION_REGEX_opened : opened_by "<" USER_MENTION_REGEX.
Proof.
  repeat (apply List.Forall_cons;
          [eexists; split; [reflexivity|];
           repeat (apply List.Forall_cons; [reflexivity|]);
           apply List.Forall_nil|]).
  apply List.Forall_nil.
Qed.

Lemma exec_from_other c re i x s :
  opened_by c re → is_char c x = false → exec_from i re (x :: s) = None.
Proof.
  intros Hre Hx. revert i.
  induction Hre as [|a re (rest & Ha & _) _ IH]; intros i; simpl; [done|].
  unfold alt_match. rewrite Ha, match_lit, Hx. simpl. apply IH.
Qed.

Lemma scan_none re s : ∀ off,
  (∀ k, exec_at re (drop k s) = None) → scan re s off 0 = [].
Proof.
  induction s as [|c s IH]; intros off H; simpl.
  - pose proof (H 0) as H0. simpl in H0. by rewrite H0.
  - pose proof (H 0) as H0. simpl in H0. rewrite H0.
    apply IH. intros k. apply (H (S k)).
Qed.

Lemma no_open_no_match c re s :
  opened_by c re → consuming re →
  Forall (λ x, x ≠ chr c) s → ∀ k, exec_at re (drop k s) = None.
Proof.
  intros Hre Hc Hs k.
  destruct (drop k s) as [|x t] eqn:D; [by apply exec_at_nil|].
  apply exec_from_other with (c := c); [done|].
  apply N.eqb_neq. rewrite Forall_forall in Hs. apply Hs.
  apply (subseteq_drop k s). rewrite D. by left.
Qed.

Lemma mention_loop_grows h body channel ms : ∀ els li r,
  mention_loop h body channel ms els li = Ok r →
  length els + length ms ≤ length r.1.
Proof.
  induction ms as [|[off m] ms IH]; intros els li r; simpl.
  - intros [= <-]. simpl. lia.
  - destruct (mention_for h channel m) as [mo|]; simpl; [|done].
    intros H. apply IH in H. rewrite !length_app in H. simpl in *. lia.
Qed.

Lemma scan_nil re off : consuming re → scan re [] off 0 = [].
Proof. intros Hre. simpl. by rewrite exec_at_nil. Qed.

(** X6.  [parseMentions] returns the empty sequence only for the empty
    body; and for a body without the character [<] it returns the body as
    its single text segment, whatever the stores hold. *)
Theorem parseMentions_plain h body channel :
  (∀ els, parseMentions h body channel = Ok els →
          (els = [] ↔ body = [])) ∧
  (Forall (λ x, x ≠ chr "<") body →
   parseMentions h body channel
   = Ok match body with [] => [] | _ => [Text body] end).
Proof.
  unfold parseMentions. split.
  - intros els.
    destruct (mention_loop _ _ _ _ _ _) as [[els' li]|] eqn:L; simpl; [|done].
    intros [= <-]. apply mention_loop_grows in L as G. cbn [fst] in G.
    destruct body as [|c body].
    + rewrite scan_nil in L by apply USER_MENTION_REGEX_consuming.
      simpl in L. by injection L as <- <-.
    + split; [|done]. intros Hels.
      destruct (li <? length (c :: body)) eqn:E.
      * by destruct els'.
      * subst els'.
        destruct (scan USER_MENTION_REGEX (c :: body) 0 0) as [|x ms] eqn:S;
          [|simpl in G; lia].
        simpl in L. injection L as <-. done.
  - intros Hb.
    rewrite scan_none
      by (apply (no_open_no_match "<");
          [apply USER_MENTION_REGEX_opened
          |apply USER_MENTION_REGEX_consuming|done]).
    simpl. by destruct body.
Qed.

Lemma parseMentions_plain_witness :
  parseMentions Sample.host (str "hello there") Sample.dm
  = Ok [Text (str "hello there")].
Proof.
  destruct (parseMentions_plain Sample.host (str "hello there") Sample.dm)
    as [_ H].
  apply H. repeat constructor; discriminate.
Defined.

(** X5.  Whenever the guild of a role mention can be looked up,
    [parseMentions] returns, and the text segments of its result, read in
    order, are the body with every mention token taken out: no other
    character of the body is lost or added. *)
Theorem parseMentions_keeps_text h body channel :
  guild_known h channel →
  ∃ els, parseMentions h body channel = Ok els
         ∧ texts els = removeMentions body.
Proof.
  intros Hg. destruct (parseMentions_texts h body channel) as [Ht Htexts].
  destruct (Ht Hg) as [els Hels]. exists els. split; [exact Hels|].
  by apply Htexts.
Qed.

Lemma parseMentions_keeps_text_witness :
  ∃ els,
    parseMentions Sample.host Sample.mention_then_text Sample.general
    = Ok els ∧
    texts els = str " hi".
Proof.
  destruct (parseMentions_keeps_text Sample.host Sample.mention_then_text
              Sample.general) as (els & Hels & Htexts).
  - intros g _ _. by eexists.
  - exists els. split; [exact Hels|].
    rewrite Htexts. vm_compute. reflexivity.
Defined.

(* ================================================================== *)
(** * More on truncation and emotes *)
(* ================================================================== *)

Lemma limitMessageLength_cases body hasAttachments :
  limitMessageLength body hasAttachments
  = if hasAttachments && (30 <? length body) then take 27 body ++ ELLIPSIS
    else if 165 <? length body then take 162 body ++ ELLIPSIS
    else body.
Proof. unfold limitMessageLength. by rewrite !substring_0. Qed.

Lemma limitMessageLength_le body hasAttachments :
  length (limitMessageLength body hasAttachments) ≤ 165.
Proof.
  assert (HE : length ELLIPSIS = 3) by reflexivity.
  rewrite limitMessageLength_cases.
  destruct (hasAttachments && (30 <? length body)).
  - rewrite length_app, length_take, HE. lia.
  - destruct (165 <? length body) eqn:E.
    + rewrite length_app, length_take, HE. lia.
    + apply Nat.ltb_ge in E. lia.
Qed.

(** X3.  [limitMessageLength] applied to its own result changes nothing;
    its result is never longer than the body, never longer than 165
    characters, and never longer than 30 when there are attachments. *)
Theorem limitMessageLength_idempotent body hasAttachments :
  let out := limitMessageLength body hasAttachments in
  limitMessageLength out hasAttachments = out ∧
  length out ≤ length body ∧
  length out ≤ 165 ∧
  (hasAttachments = true → length out ≤ 30).
Proof.
  assert (HE : length ELLIPSIS = 3) by reflexivity.
  intros out. subst out.
  rewrite (limitMessageLength_cases body).
  destruct hasAttachments; simpl.
  - destruct (30 <? length body) eqn:E.
    + apply Nat.ltb_lt in E.
      assert (length (take 27 body ++ ELLIPSIS) = 30) as L
        by (rewrite length_app, length_take, HE; lia).
      rewrite limitMessageLength_cases, L. simpl. split_and!; try lia. done.
    + apply Nat.ltb_ge in E.
      destruct (165 <? length body) eqn:E2; [apply Nat.ltb_lt in E2; lia|].
      rewrite limitMessageLength_cases. simpl.
      apply Nat.ltb_ge in E as E'. rewrite E', E2. split_and!; try lia. done.
  - destruct (165 <? length body) eqn:E.
    + apply Nat.ltb_lt in E.
      assert (length (take 162 body ++ ELLIPSIS) = 165) as L
        by (rewrite length_app, length_take, HE; lia).
      rewrite limitMessageLength_cases, L. simpl. split_and!; try lia; done.
    + rewrite limitMessageLength_cases. simpl. rewrite E.
      apply Nat.ltb_ge in E. split_and!; try lia; done.
Qed.

Section shrink.
Context (re : regex) (f : jsstring → jsstring).
Hypothesis re_consuming : consuming re.
Hypothesis f_shorter : ∀ s m,
  exec_at re s = Some m → length (f (take (m_len m) s)) < m_len m.

Lemma replace_go_length s : ∀ k,
  k ≤ length s → length (replace_go re f s k) + k ≤ length s.
Proof.
  induction s as [|c s IH]; intros k Hk; simpl in *.
  - assert (k = 0) as -> by lia. by rewrite exec_at_nil.
  - destruct k as [|k]; [|specialize (IH k); lia].
    destruct (exec_at re (c :: s)) as [m|] eqn:E.
    + pose proof (f_shorter _ _ E) as Hf.
      pose proof (exec_at_bounds _ _ _ re_consuming E) as [H1 H2].
      simpl in H2. rewrite length_app.
      destruct (m_len m) as [|l] eqn:L; [lia|].
      specialize (IH l). lia.
    + simpl. specialize (IH 0). lia.
Qed.

Lemma replace_go_fixed s :
  replace_go re f s 0 = s → ∀ k, exec_at re (drop k s) = None.
Proof.
  induction s as [|c s IH]; intros Heq k.
  - rewrite drop_nil. by apply exec_at_nil.
  - simpl in Heq. destruct (exec_at re (c :: s)) as [m|] eqn:E.
    + exfalso.
      pose proof (f_shorter _ _ E) as Hf.
      pose proof (exec_at_bounds _ _ _ re_consuming E) as [H1 H2].
      simpl in H2. apply (f_equal length) in Heq.
      rewrite length_app in Heq.
      destruct (m_len m) as [|l] eqn:L; [lia|].
      pose proof (replace_go_length s l).
      change (length (c :: s)) with (S (length s)) in Heq. lia.
    + injection Heq as Heq. destruct k as [|k]; [done|]. by apply IH.
Qed.
End shrink.

Lemma emote_callback_shorter s m :
  exec_at EMOTE_REGEX s = Some m →
  length (str ":" ++ tmpl (split_on (chr ":") (take (m_len m) s) !! 1)
          ++ str ":") < m_len m.
Proof.
  intros E. pose proof (exec_at_EMOTE s) as H. rewrite E in H.
  destruct (match_seq emote_atoms s) as [cs|] eqn:M; [|discriminate H].
  injection H as H.
  apply emote_match_inv
    in M as (animated & name & id & post & Hn & Hname & Hi & Hid & -> & Hs).
  rewrite H, Hs.
  rewrite app_comm_cons, take_app_length', emote_name by (simpl; done).
  simpl tmpl. rewrite emote_tail_length, !length_app.
  change (length (str ":")) with 1. destruct id; [done|]. simpl. lia.
Qed.

Lemma token_free_no_match s :
  token_free s ↔ ∀ k, exec_at EMOTE_REGEX (drop k s) = None.
Proof.
  split.
  - intros Hs k.
    destruct (exec_at EMOTE_REGEX (drop k s)) as [m|] eqn:E; [|done].
    pose proof (exec_at_EMOTE (drop k s)) as H. rewrite E in H.
    destruct (match_seq emote_atoms (drop k s)) as [cs|] eqn:M;
      [|discriminate H].
    apply emote_match_inv
      in M as (animated & name & id & post & Hn & Hname & Hi & Hid & Hd & _).
    exfalso. apply (Hs (take k s) (emote_token animated name id) post).
    + by rewrite emote_token_cons, <- app_comm_cons, <- Hd, take_drop.
    + by exists animated, name, id.
  - intros Hnone pre t post -> (animated & name & id & Hn & Hname & Hi & Hid & ->).
    specialize (Hnone (length pre)). rewrite drop_app_length in Hnone.
    pose proof (exec_at_EMOTE (emote_token animated name id ++ post)) as H.
    rewrite Hnone, emote_token_cons, <- app_comm_cons, emote_match in H
      by done.
    discriminate H.
Qed.

(** X4.  [formatEmotes] never makes the body longer, and it returns the
    body unchanged exactly when no part of the body is an emote token. *)
Theorem formatEmotes_shrinks s :
  length (formatEmotes s) ≤ length s ∧
  (formatEmotes s = s ↔ token_free s).
Proof.
  split.
  - pose proof (replace_go_length EMOTE_REGEX
                  (λ m, str ":" ++ tmpl (split_on (chr ":") m !! 1)
                        ++ str ":")
                  EMOTE_REGEX_consuming emote_callback_shorter s 0) as H.
    unfold formatEmotes, replace_all. lia.
  - rewrite token_free_no_match. unfold formatEmotes, replace_all. split.
    + apply (replace_go_fixed EMOTE_REGEX
               (λ m, str ":" ++ tmpl (split_on (chr ":") m !! 1)
                     ++ str ":")
               EMOTE_REGEX_consuming emote_callback_shorter).
    + intros H. by apply replace_go_none; [apply EMOTE_REGEX_consuming|].
Qed.

(* ================================================================== *)
(** * What the message handlers show *)
(* ================================================================== *)

Lemma buildNotificationData_fields h m ch c n :
  buildNotificationData h m ch c = Ok n →
  ∃ raw,
    getNotificationBody h m ch = Ok raw ∧
    title n = getNotificationTitle h m ch ∧
    icon n = getAvatarURL (author m) ∧
    body n = limitMessageLength (formatEmotes raw)
               (0 <? length (attachments m)) ∧
    image n = url <$> head (images_of m) ∧
    n_attachments n = length (attachments m) ∧
    onClick n = Some c.
Proof.
  unfold buildNotificationData.
  destruct (getNotificationBody h m ch) as [raw|]; simpl; [|done].
  destruct (if _ || _ then _ else _); simpl; [|done].
  intros [= <-]. exists raw. by destruct (images_of m).
Qed.

Lemma MESSAGE_CREATE_inv h cfg st m n :
  MESSAGE_CREATE h cfg st m = Ok (Some n) →
  ∃ ch,
    getChannel h (msg_channel_id m) = Some ch ∧
    (disableInStreamerMode cfg && streamerModeEnabled h
     || isStreaming h && bool_decide (streamingTreatment cfg = IGNORE)
     || str_eqb (user_id (author m)) (user_id (getCurrentUser h))) = false ∧
    (match getChannelId h with
     | Some sel => str_eqb (channel_id ch) sel
     | None => false
     end
     || array_includes (ignoredUsers st) (user_id (author m))) = false ∧
    (truthy (guild_id ch) = true ∧ handleGuildMessage h cfg st m = Ok (Some n)
     ∨ truthy (guild_id ch) = false ∧
       (negb (directMessages cfg) && isDM ch
        || negb (groupMessages cfg) && isGroupDM ch
        || isChannelMuted h (channel_id ch)) = false ∧
       ∃ b, buildNotificationData h m ch
              (SelectPrivateChannel (msg_channel_id m)) = Ok b ∧
            n = if redaction_on h cfg then redact b else b).
Proof.
  unfold MESSAGE_CREATE.
  destruct (_ || str_eqb _ _) eqn:G1; [done|].
  destruct (getChannel h (msg_channel_id m)) as [ch|] eqn:Hch; simpl;
    [|done].
  destruct (_ || array_includes _ _) eqn:G2; [done|].
  intros H. exists ch. split_and!; try done.
  destruct (truthy (guild_id ch)); [by left|]. right.
  destruct (_ || isChannelMuted _ _) eqn:G3; [done|]. split_and!; try done.
  destruct (buildNotificationData _ _ _ _) as [b|] eqn:B; simpl in H;
    [|done].
  exists b. split; [done|]. by injection H as <-.
Qed.

Lemma handleGuildMessage_inv h cfg st m n :
  handleGuildMessage h cfg st m = Ok (Some n) →
  ∃ ch b,
    getChannel h (msg_channel_id m) = Some ch ∧
    buildNotificationData h m ch
      (SwitchChannels (guild_id ch) (channel_id ch)) = Ok b ∧
    n = if redaction_on h cfg then redact b else b.
Proof.
  unfold handleGuildMessage.
  destruct (getChannel h _) as [ch|] eqn:Hch; simpl; [|done].
  destruct (negb _ && negb _ && _); [done|].
  destruct (buildNotificationData _ _ _ _) as [b|] eqn:B; simpl; [|done].
  intros [= <-]. by exists ch, b.
Qed.

(** X7.  The current [MESSAGE_CREATE] shows a toast only when: streamer
    mode does not suppress it, no stream is shared under the "ignore"
    treatment, the author is not the current user, the channel is known,
    is not the selected channel, and the author is not ignored; and, in a
    private channel, only when direct (group) messages are enabled for a
    direct (group) channel and the channel is not muted. *)
Theorem MESSAGE_CREATE_shown_only_if h cfg st m n :
  MESSAGE_CREATE h cfg st m = Ok (Some n) →
  ∃ ch,
    getChannel h (msg_channel_id m) = Some ch ∧
    ¬ (disableInStreamerMode cfg = true ∧ streamerModeEnabled h = true) ∧
    ¬ (isStreaming h = true ∧ streamingTreatment cfg = IGNORE) ∧
    user_id (author m) ≠ user_id (getCurrentUser h) ∧
    (getChannelId h ≠ Some (channel_id ch)) ∧
    (user_id (author m) ∉ ignoredUsers st) ∧
    (truthy (guild_id ch) = false →
     (isDM ch = true → directMessages cfg = true) ∧
     (isGroupDM ch = true → groupMessages cfg = true) ∧
     isChannelMuted h (channel_id ch) = false).
Proof.
  intros (ch & Hch & G1 & G2 & H)%MESSAGE_CREATE_inv.
  apply orb_false_iff in G1 as [G1 Hme].
  apply orb_false_iff in G1 as [Hsm Hig].
  apply orb_false_iff in G2 as [Hsel Hign].
  exists ch. split_and!; try done.
  - intros [H1 H2]. by rewrite H1, H2 in Hsm.
  - intros [H1 H2]. rewrite H1 in Hig. simpl in Hig.
    by apply bool_decide_eq_false in Hig.
  - intros Heq. apply str_eqb_eq in Heq. by rewrite Heq in Hme.
  - intros Heq. rewrite Heq in Hsel. by rewrite str_eqb_refl in Hsel.
  - intros Hin%array_includes_elem. by rewrite Hin in Hign.
  - intros Hg. destruct H as [[Hg' _]|(_ & G3 & _)]; [by rewrite Hg in Hg'|].
    apply orb_false_iff in G3 as [G3 Hmute].
    apply orb_false_iff in G3 as [Hd Hgr].
    split_and!; [| |done].
    + intros Hdm. rewrite Hdm, andb_true_r in Hd. by apply negb_false_iff.
    + intros Hdm. rewrite Hdm, andb_true_r in Hgr. by apply negb_false_iff.
Qed.

Lemma MESSAGE_CREATE_shown_only_if_witness :
  ∃ ch,
    getChannel Sample.host (channel_id Sample.dm) = Some ch ∧
    user_id Sample.alice ≠ user_id (getCurrentUser Sample.host) ∧
    isChannelMuted Sample.host (channel_id ch) = false.
Proof.
  destruct (MESSAGE_CREATE_shown_only_if Sample.host Sample.cfg Sample.st
              (Sample.message Sample.alice Sample.dm (str "hello") [])
              _ ltac:(vm_compute; reflexivity))
    as (ch & Hch & _ & _ & Hme & _ & _ & Hp).
  exists ch. split_and!; [exact Hch | exact Hme |].
  apply Hp. injection Hch as <-. reflexivity.
Defined.

(** X8.  The older [MESSAGE_CREATE] shows a toast only when streamer mode
    does not suppress it, the channel is known and the author is not
    ignored; in a private channel moreover only when the author is not the
    current user, the mute store allows all messages of the channel, the
    channel is not the selected one and direct (group) messages are
    enabled for a direct (group) channel. *)
Theorem legacy_MESSAGE_CREATE_shown_only_if h cfg st m n :
  Legacy.MESSAGE_CREATE h cfg st m = Ok (Some n) →
  ∃ ch,
    getChannel h (msg_channel_id m) = Some ch ∧
    ¬ (disableInStreamerMode cfg = true ∧ streamerModeEnabled h = true) ∧
    (user_id (author m) ∉ ignoredUsers st) ∧
    (truthy (guild_id ch) = false →
     user_id (author m) ≠ user_id (getCurrentUser h) ∧
     allowAllMessages h ch = true ∧
     (getChannelId h ≠ Some (channel_id ch)) ∧
     (isDM ch = true → directMessages cfg = true) ∧
     (isGroupDM ch = true → groupMessages cfg = true)).
Proof.
  unfold Legacy.MESSAGE_CREATE.
  destruct (_ && _) eqn:G1; [done|].
  destruct (getChannel h (msg_channel_id m)) as [ch|]; simpl; [|done].
  intros H. exists ch. split; [done|]. split.
  { intros [H1 H2]. by rewrite H1, H2 in G1. }
  destruct (truthy (guild_id ch)).
  - destruct (array_includes _ _) eqn:A; simpl in H; [done|]. split; [|done].
    intros Hin%array_includes_elem. by rewrite Hin in A.
  - destruct (_ || _) eqn:G; [done|].
    repeat (apply orb_false_iff in G as [G ?]).
    split.
    { intros Hin%array_includes_elem. congruence. }
    intros _. split_and!.
    + intros Heq. apply str_eqb_eq in Heq. congruence.
    + by apply negb_false_iff.
    + intros Heq. rewrite Heq in *. rewrite str_eqb_refl in *. congruence.
    + intros Hdm. rewrite Hdm, andb_true_r in *. by apply negb_false_iff.
    + intros Hdm. rewrite Hdm, andb_true_r in *. by apply negb_false_iff.
Qed.

Lemma legacy_MESSAGE_CREATE_shown_only_if_witness :
  ∃ ch,
    getChannel Sample.host (channel_id Sample.dm) = Some ch ∧
    user_id Sample.alice ∉ ignoredUsers Sample.st.
Proof.
  destruct (legacy_MESSAGE_CREATE_shown_only_if Sample.host Sample.cfg
              Sample.st
              (Sample.message Sample.alice Sample.dm (str "hello") [])
              _ ltac:(vm_compute; reflexivity))
    as (ch & Hch & _ & Hi & _).
  by exists ch.
Defined.

(* ================================================================== *)
(** * The notification level of a guild message *)
(* ================================================================== *)

Lemma findNotificationLevel_gated h cfg ch :
  determineServerNotifications cfg = false
  ∨ isGuildOrCategoryOrChannelMuted h (guild_id ch) (channel_id ch) = true →
  findNotificationLevel h cfg ch = NO_MESSAGES.
Proof.
  unfold findNotificationLevel. intros [->| ->]; [done|].
  by rewrite orb_true_r.
Qed.

(** X9.  For a guild message whose channel is not in the always-notify
    list and whose author is not a friend with friend-server notifications
    on, [handleGuildMessage] returns without a toast exactly when the
    notification level is "no messages", or is not "all messages" and the
    text does not contain the mention token of the current user.  The level
    is "no messages" whenever the automatic level is switched off or the
    guild, category or channel is muted, so that then even a mention is not
    shown. *)
Theorem handleGuildMessage_silent_iff h cfg st m ch :
  getChannel h (msg_channel_id m) = Some ch →
  msg_channel_id m ∉ notifyFor st →
  friendServerNotifications cfg && isFriend h (user_id (author m)) = false →
  (handleGuildMessage h cfg st m = Ok None ↔
   findNotificationLevel h cfg ch = NO_MESSAGES
   ∨ (findNotificationLevel h cfg ch ≠ ALL_MESSAGES
      ∧ ¬ contains (content m)
            (mention_token (user_id (getCurrentUser h))))) ∧
  (determineServerNotifications cfg = false
   ∨ isGuildOrCategoryOrChannelMuted h (guild_id ch) (channel_id ch) = true →
   handleGuildMessage h cfg st m = Ok None).
Proof.
  intros Hch Hall%array_includes_not_elem Hfriend.
  assert (Hiff : handleGuildMessage h cfg st m = Ok None ↔
    findNotificationLevel h cfg ch = NO_MESSAGES
    ∨ (findNotificationLevel h cfg ch ≠ ALL_MESSAGES
       ∧ ¬ contains (content m)
             (mention_token (user_id (getCurrentUser h))))).
  { unfold handleGuildMessage. rewrite Hch, Hall, Hfriend. simpl.
    unfold mention_token.
    destruct (findNotificationLevel h cfg ch =? NO_MESSAGES)%Z eqn:N.
    { apply Z.eqb_eq in N. simpl. split; [by left|done]. }
    apply Z.eqb_neq in N.
    destruct (findNotificationLevel h cfg ch =? ALL_MESSAGES)%Z eqn:A.
    - apply Z.eqb_eq in A. simpl. split.
      + by destruct (buildNotificationData _ _ _ _).
      + intros [?|[? _]]; done.
    - apply Z.eqb_neq in A. simpl.
      destruct (includes _ _) eqn:I; simpl.
      + apply includes_contains in I. split.
        * by destruct (buildNotificationData _ _ _ _).
        * intros [?|[_ ?]]; done.
      + split; [|done]. intros _. right. split; [done|].
        intros C%includes_contains. congruence. }
  split; [done|]. intros Hg. apply Hiff. left.
  by apply findNotificationLevel_gated.
Qed.

Lemma handleGuildMessage_silent_iff_witness :
  handleGuildMessage Sample.host Sample.cfg
    {| ignoredUsers := []; notifyFor := [] |}
    (Sample.message Sample.alice Sample.general (str "hello") [])
  = Ok None.
Proof.
  destruct (handleGuildMessage_silent_iff Sample.host Sample.cfg
              {| ignoredUsers := []; notifyFor := [] |}
              (Sample.message Sample.alice Sample.general (str "hello") [])
              Sample.general) as [H _];
    [reflexivity | apply not_elem_of_nil | reflexivity |].
  apply H. left. reflexivity.
Defined.

(* ================================================================== *)
(** * The toast of a message *)
(* ================================================================== *)

Lemma redact_fields n :
  title (redact n) = title n ∧ icon (redact n) = icon n ∧
  image (redact n) = image n ∧ onClick (redact n) = onClick n ∧
  n_attachments (redact n) = n_attachments n.
Proof. done. Qed.

Lemma legacy_finish_fields h m ch title0 body0 c n :
  Legacy.finish h m ch title0 body0 c = Ok (Some n) →
  title n = title0 ∧
  body n = limitMessageLength
             (Legacy.replaceEmotes (Legacy.mediaBody m body0).1)
             (0 <? length (attachments m)) ∧
  image n = (Legacy.mediaBody m body0).2 ∧
  onClick n = Some c.
Proof.
  unfold Legacy.finish. destruct (Legacy.mediaBody m body0) as [text img].
  simpl. destruct (Legacy.replaceMentions _ _ _ _) as [els|]; simpl; [|done].
  by intros [= <-].
Qed.

Lemma legacy_MESSAGE_CREATE_inv h cfg st m n :
  Legacy.MESSAGE_CREATE h cfg st m = Ok (Some n) →
  ∃ ch title0 body0,
    getChannel h (msg_channel_id m) = Some ch ∧
    Legacy.finish h m ch title0 body0
      (if truthy (guild_id ch)
       then SwitchChannels (guild_id ch) (channel_id ch)
       else SelectPrivateChannel (msg_channel_id m)) = Ok (Some n).
Proof.
  unfold Legacy.MESSAGE_CREATE.
  destruct (_ && _); [done|].
  destruct (getChannel h (msg_channel_id m)) as [ch|] eqn:Hch; simpl;
    [|done].
  destruct (truthy (guild_id ch)) eqn:Hg.
  - destruct (negb _); [|done]. intros H. apply not_awaited_Some in H.
    revert H. unfold Legacy.handleGuildMessage.
    destruct (negb _); [done|]. rewrite Hch.
    cbn [mbind result_bind deref]. intros H.
    eexists ch, _, _. split; [done|]. rewrite Hg. exact H.
  - destruct (_ || _); [done|].
    destruct (if isGroupDM ch then _ else _) as [title0|]; simpl; [|done].
    destruct (Legacy.typeBody h m) as [body0|]; simpl; [|done].
    intros H. exists ch, title0, body0. by rewrite Hg.
Qed.

(** X10.  The plain body of every toast a message handler shows, in
    either revision, has at most 165 characters. *)
Theorem shown_body_bounded h cfg st m n :
  MESSAGE_CREATE h cfg st m = Ok (Some n)
  ∨ Legacy.MESSAGE_CREATE h cfg st m = Ok (Some n) →
  length (body n) ≤ 165.
Proof.
  assert (Hb : ∀ ch c b,
            buildNotificationData h m ch c = Ok b →
            length (body (if redaction_on h cfg then redact b else b)) ≤ 165).
  { intros ch c b (raw & _ & _ & _ & Hbody & _)%buildNotificationData_fields.
    destruct (redaction_on h cfg); [vm_compute; lia|].
    rewrite Hbody. apply limitMessageLength_le. }
  intros [H|H].
  - apply MESSAGE_CREATE_inv in H as (ch & _ & _ & _ & [[_ H]|(_ & _ & H)]).
    + apply handleGuildMessage_inv in H as (ch' & b & _ & B & ->).
      by eapply Hb.
    + destruct H as (b & B & ->). by eapply Hb.
  - apply legacy_MESSAGE_CREATE_inv in H as (ch & t0 & b0 & _ & H).
    apply legacy_finish_fields in H as (_ & -> & _).
    apply limitMessageLength_le.
Qed.

Lemma shown_body_bounded_witness :
  ∃ n, MESSAGE_CREATE Sample.host Sample.cfg Sample.st Sample.long_message
       = Ok (Some n) ∧ length (body n) ≤ 165.
Proof.
  eexists. split; [vm_compute; reflexivity|].
  apply (shown_body_bounded Sample.host Sample.cfg Sample.st
           Sample.long_message).
  left. vm_compute. reflexivity.
Defined.

Lemma getNotificationBody_ok h m ch :
  msg_type m ≠ CHANNEL_RECIPIENT_ADD →
  msg_type m ≠ CHANNEL_RECIPIENT_REMOVE →
  ∃ raw, getNotificationBody h m ch = Ok raw.
Proof.
  intros Ha Hr. unfold getNotificationBody.
  destruct (msg_type m); try done; eauto.
  repeat case_match; eauto.
Qed.

Lemma buildNotificationData_ok h m ch c :
  msg_type m ≠ CHANNEL_RECIPIENT_ADD →
  msg_type m ≠ CHANNEL_RECIPIENT_REMOVE →
  guild_known h ch →
  ∃ b, buildNotificationData h m ch c = Ok b.
Proof.
  intros Ha Hr Hg. unfold buildNotificationData.
  destruct (getNotificationBody_ok h m ch Ha Hr) as [raw ->]. simpl.
  destruct (_ || _); simpl; [|eauto].
  unfold parseMentions.
  destruct (mention_loop_total h (formatEmotes raw) ch
              (scan USER_MENTION_REGEX (formatEmotes raw) 0 0) Hg [] 0)
    as [[els li] ->].
  simpl. eauto.
Qed.

(** X11.  The current [MESSAGE_CREATE] does not throw for a message whose
    channel is in the channel store, whose type is neither "recipient
    added" nor "recipient removed", and whose guild, if any, is in the
    guild store. *)
Theorem MESSAGE_CREATE_returns h cfg st m ch :
  getChannel h (msg_channel_id m) = Some ch →
  guild_known h ch →
  msg_type m ≠ CHANNEL_RECIPIENT_ADD →
  msg_type m ≠ CHANNEL_RECIPIENT_REMOVE →
  ∃ shown, MESSAGE_CREATE h cfg st m = Ok shown.
Proof.
  intros Hch Hg Ha Hr. unfold MESSAGE_CREATE, handleGuildMessage.
  rewrite Hch. simpl.
  destruct (_ || str_eqb _ _); [eauto|].
  destruct (_ || array_includes _ _); [eauto|].
  destruct (truthy (guild_id ch)).
  - destruct (negb _ && negb _ && _); [eauto|].
    destruct (buildNotificationData_ok h m ch
                (SwitchChannels (guild_id ch) (channel_id ch)) Ha Hr Hg)
      as [b ->].
    simpl. eauto.
  - destruct (_ || isChannelMuted _ _); [eauto|].
    destruct (buildNotificationData_ok h m ch
                (SelectPrivateChannel (msg_channel_id m)) Ha Hr Hg)
      as [b ->].
    simpl. eauto.
Qed.

Lemma MESSAGE_CREATE_returns_witness :
  ∃ shown,
    MESSAGE_CREATE Sample.host Sample.cfg Sample.st Sample.long_message
    = Ok shown.
Proof.
  apply (MESSAGE_CREATE_returns Sample.host Sample.cfg Sample.st
           Sample.long_message Sample.general);
    [reflexivity | intros g _ _; by eexists | discriminate | discriminate].
Defined.

Lemma redaction_on_redacting h cfg : redaction_on h (redacting cfg) = true.
Proof. unfold redaction_on. simpl. apply orb_true_r. Qed.

(** X12.  Switching on "redact message body" never changes whether the
    current [MESSAGE_CREATE] shows a toast, throws or stays silent; a toast
    that is shown differs only in its body and rich body from the one shown
    without the setting: title, icon, image, attachment count and click
    handler are the same. *)
Theorem redacting_only_hides_body h cfg st m :
  MESSAGE_CREATE h (redacting cfg) st m
  = match MESSAGE_CREATE h cfg st m with
    | Ok (Some n) => Ok (Some (redact n))
    | r => r
    end ∧
  ∀ n, title (redact n) = title n ∧ icon (redact n) = icon n ∧
       image (redact n) = image n ∧ onClick (redact n) = onClick n ∧
       n_attachments (redact n) = n_attachments n.
Proof.
  split; [|done].
  unfold MESSAGE_CREATE, handleGuildMessage.
  rewrite !redaction_on_redacting.
  change (findNotificationLevel h (redacting cfg))
    with (findNotificationLevel h cfg).
  change (disableInStreamerMode (redacting cfg))
    with (disableInStreamerMode cfg).
  change (streamingTreatment (redacting cfg)) with (streamingTreatment cfg).
  change (directMessages (redacting cfg)) with (directMessages cfg).
  change (groupMessages (redacting cfg)) with (groupMessages cfg).
  change (friendServerNotifications (redacting cfg))
    with (friendServerNotifications cfg).
  destruct (_ || str_eqb _ _); [done|].
  destruct (getChannel h (msg_channel_id m)) as [ch|]; simpl; [|done].
  destruct (_ || array_includes _ _); [done|].
  destruct (truthy (guild_id ch)).
  - destruct (negb _ && negb _ && _); [done|].
    destruct (buildNotificationData _ _ _ _) as [b|]; simpl; [|done].
    by destruct (redaction_on h cfg).
  - destruct (_ || isChannelMuted _ _); [done|].
    destruct (buildNotificationData _ _ _ _) as [b|]; simpl; [|done].
    by destruct (redaction_on h cfg).
Qed.

Lemma legacy_mediaBody_image m body0 :
  (Legacy.mediaBody m body0).2 = url <$> head (images_of m).
Proof.
  unfold Legacy.mediaBody, images_of.
  destruct (attachments m) as [|a l] eqn:A; [done|].
  by destruct (filter _ (a :: l)).
Qed.

(** X13.  A toast shown for a message, in either revision, carries as its
    image the url of the first attachment whose content type starts with
    "image", and no image when there is no such attachment; its click
    handler selects the private channel of the message, or, for a guild
    channel, navigates to the route of the guild and channel when the
    channel store has the channel. *)
Theorem shown_image_and_click h cfg st m ch n :
  MESSAGE_CREATE h cfg st m = Ok (Some n)
  ∨ Legacy.MESSAGE_CREATE h cfg st m = Ok (Some n) →
  getChannel h (msg_channel_id m) = Some ch →
  image n = url <$> head (images_of m) ∧
  ∀ h',
    run_click h' n
    = if truthy (guild_id ch) then
        if hasChannel h' (channel_id ch)
        then [transitionTo (route (guild_id ch) (channel_id ch))]
        else []
      else [selectPrivateChannel (msg_channel_id m)].
Proof.
  intros H Hch.
  assert (image n = url <$> head (images_of m) ∧
          onClick n = Some (if truthy (guild_id ch)
                            then SwitchChannels (guild_id ch) (channel_id ch)
                            else SelectPrivateChannel (msg_channel_id m)))
    as [Hi Hc].
  { destruct H as [H|H].
    - apply MESSAGE_CREATE_inv in H as (ch' & Hch' & _ & _ & H).
      assert (ch' = ch) as -> by congruence.
      destruct H as [[Hg H]|(Hg & _ & b & B & ->)]; rewrite Hg.
      + apply handleGuildMessage_inv in H as (ch' & b & Hch'' & B & ->).
        assert (ch' = ch) as -> by congruence.
        apply buildNotificationData_fields
          in B as (raw & _ & _ & _ & _ & Hi & _ & Hc).
        by destruct (redaction_on h cfg).
      + apply buildNotificationData_fields
          in B as (raw & _ & _ & _ & _ & Hi & _ & Hc).
        by destruct (redaction_on h cfg).
    - apply legacy_MESSAGE_CREATE_inv in H as (ch' & t0 & b0 & Hch' & H).
      assert (ch' = ch) as -> by congruence.
      apply legacy_finish_fields in H as (_ & _ & Hi & Hc).
      by rewrite Hi, legacy_mediaBody_image. }
  split; [done|]. intros h'. unfold run_click. rewrite Hc.
  destruct (truthy (guild_id ch)); [|done].
  simpl. unfold switchChannels, route. by destruct (hasChannel h' _).
Qed.

Lemma shown_image_and_click_witness :
  ∃ n,
    MESSAGE_CREATE Sample.host Sample.cfg Sample.st
      (Sample.message Sample.alice Sample.general (str "hello") [])
    = Ok (Some n) ∧
    image n = None ∧
    run_click Sample.host n
    = [transitionTo (str "/channels/200000000000000001/300000000000000001/")].
Proof.
  eexists.
  assert (H1 : ∀ a b : Prop, a → (a → b) → a ∧ b)
    by (intros a b Ha Hb; auto).
  apply H1; [vm_compute; reflexivity|]. intros E.
  destruct (shown_image_and_click Sample.host Sample.cfg Sample.st
              (Sample.message Sample.alice Sample.general (str "hello") [])
              Sample.general _ (or_introl E) eq_refl) as [Hi Hc].
  split; [exact Hi|]. rewrite Hc. vm_compute. reflexivity.
Defined.

(* ================================================================== *)
(** * More on relationship events *)
(* ================================================================== *)

(** X14.  In either revision [RELATIONSHIP_ADD] returns without a toast,
    and without looking the user up, when friend-activity notifications
    are off or the user is ignored; a toast it shows is for a friend or an
    incoming request, has no attachments, no image and no rich body, and
    its click navigates to "/channels/@me/<target>/" when the channel store
    has the target (the id of the stored user for a friend, the empty id
    for a request). *)
Theorem relationship_toast h cfg st user type :
  (friendActivity cfg = false ∨ user_id user ∈ ignoredUsers st →
   RELATIONSHIP_ADD h cfg st user type = Ok None ∧
   Legacy.RELATIONSHIP_ADD h cfg st user type = Ok None) ∧
  ∀ n,
    RELATIONSHIP_ADD h cfg st user type = Ok (Some n)
    ∨ Legacy.RELATIONSHIP_ADD h cfg st user type = Ok (Some n) →
    type ≠ OTHER_RELATIONSHIP ∧
    n_attachments n = 0 ∧ image n = None ∧ richBody n = None ∧
    ∃ stored,
      getUser h (user_id user) = Some stored ∧
      ∀ h',
        let target :=
          match type with FRIEND => user_id stored | _ => [] end in
        run_click h' n
        = if hasChannel h' target
          then [transitionTo (str "/channels/@me/" ++ target ++ str "/")]
          else [].
Proof.
  unfold RELATIONSHIP_ADD, Legacy.RELATIONSHIP_ADD,
    relationshipAdd, Legacy.relationshipAdd.
  split.
  - intros [Hf|Hi%array_includes_elem].
    + rewrite Hf. simpl. by destruct (array_includes _ _).
    + by rewrite Hi.
  - intros n. destruct (array_includes _ _); [by intros [|]|].
    intros H.
    assert (∀ r1 r2 : result (option NotificationData),
              not_awaited r1 = Ok (Some n) ∨ not_awaited r2 = Ok (Some n) →
              r1 = Ok (Some n) ∨ r2 = Ok (Some n)) as Hna
      by (intros r1 r2 [?|?]; [left|right]; by apply not_awaited_Some).
    apply Hna in H. clear Hna. revert H.
    destruct (negb _); [by intros [|]|].
    destruct (getUser h (user_id user)) as [stored|]; simpl;
      [|by intros [|]].
    intros H.
    assert (type ≠ OTHER_RELATIONSHIP ∧
            n_attachments n = 0 ∧ image n = None ∧ richBody n = None ∧
            onClick n = Some (SwitchChannels None
                                match type with
                                | FRIEND => user_id stored
                                | _ => []
                                end)) as (Ht & Ha & Hi & Hr & Hc).
    { destruct type, H as [H|H]; simplify_eq; done. }
    split_and!; try done. exists stored. split; [done|].
    intros h'. unfold run_click. rewrite Hc. simpl.
    unfold switchChannels. by destruct (hasChannel h' _).
Qed.

Lemma relationship_toast_witness :
  ∃ n,
    RELATIONSHIP_ADD Sample.host Sample.cfg Sample.st Sample.alice FRIEND
    = Ok (Some n) ∧
    n_attachments n = 0 ∧ image n = None ∧ richBody n = None.
Proof.
  eexists.
  assert (H1 : ∀ a b : Prop, a → (a → b) → a ∧ b)
    by (intros a b Ha Hb; auto).
  apply H1; [vm_compute; reflexivity|]. intros E.
  destruct (relationship_toast Sample.host Sample.cfg Sample.st
              Sample.alice FRIEND) as [_ H].
  destruct (H _ (or_introl E)) as (_ & Ha & Hi & Hr & _).
  by split_and!.
Defined.

(* ================================================================== *)
(** * More on titles and bodies *)
(* ================================================================== *)

(** X15.  The title of a group DM is at most 26 characters longer than the
    author's username, whatever the channel's name and recipients. *)
Theorem group_title_bounded h m ch :
  isGroupDM ch = true →
  length (getNotificationTitle h m ch) ≤ length (username (author m)) + 26.
Proof.
  intros Hg. unfold getNotificationTitle. rewrite Hg.
  assert (HE : length ELLIPSIS = 3) by reflexivity.
  assert (Hl : ∀ o, length (tmpl (truncate_name o)) ≤ 23).
  { intros [n|]; simpl; [|vm_compute; lia].
    destruct (20 <? length n) eqn:E.
    - rewrite substring_0, length_app, length_take, HE. lia.
    - apply Nat.ltb_ge in E. lia. }
  rewrite !length_app.
  change (length (str " (")) with 2. change (length (str ")")) with 1.
  match goal with |- context [tmpl (truncate_name ?o)] =>
    specialize (Hl o) end.
  lia.
Qed.

Lemma group_title_bounded_witness :
  length (getNotificationTitle Sample.host
            (Sample.message Sample.alice Sample.group (str "hi") [])
            Sample.group)
  ≤ length (username Sample.alice) + 26.
Proof.
  apply (group_title_bounded Sample.host
           (Sample.message Sample.alice Sample.group (str "hi") [])
           Sample.group).
  reflexivity.
Defined.

(** X16.  [getNotificationBody] can throw only for the types "recipient
    added" and "recipient removed".  For a message of an ordinary type
    with a text, the body is the text, followed by the note of the first
    attachment's file name only when there are attachments, none of them
    an image, and neither embeds nor a sticker list. *)
Theorem getNotificationBody_text h m ch :
  (getNotificationBody h m ch = Throw →
   msg_type m = CHANNEL_RECIPIENT_ADD
   ∨ msg_type m = CHANNEL_RECIPIENT_REMOVE) ∧
  (msg_type m = OTHER_MESSAGE_TYPE → content m ≠ [] →
   ∃ note,
     getNotificationBody h m ch = Ok (content m ++ note) ∧
     (note = []
      ∨ embeds m = [] ∧ stickerItems m = None ∧ images_of m = [] ∧
        ∃ first rest,
          attachments m = first :: rest ∧
          note = str " [Attachment: " ++ filename first ++ str "]")).
Proof.
  split.
  - intros H.
    destruct (msg_type m) eqn:T; [|by left|by right|..];
      (destruct (getNotificationBody_ok h m ch) as [raw Hraw];
       [by rewrite T..|congruence]).
  - intros Ht Hc. unfold getNotificationBody. rewrite Ht.
    destruct (content m) as [|c0 text] eqn:C; [done|]. simpl or_else.
    destruct (embeds m) as [|e es] eqn:E; simpl.
    2: { exists []. rewrite app_nil_r. by split; [|left]. }
    destruct (stickerItems m) as [s|] eqn:S; simpl.
    { exists []. rewrite app_nil_r. by split; [|left]. }
    destruct (attachments m) as [|first rest] eqn:A.
    { exists []. rewrite app_nil_r. by split; [|left]. }
    destruct (images_of m) as [|img imgs] eqn:I; simpl.
    + eexists. split; [done|]. right. split_and!; try done. by eexists _, _.
    + exists []. rewrite app_nil_r. by split; [|left].
Qed.

Lemma getNotificationBody_text_witness :
  ∃ note,
    getNotificationBody Sample.host Sample.own_message Sample.general
    = Ok (content Sample.own_message ++ note).
Proof.
  destruct (getNotificationBody_text Sample.host Sample.own_message
              Sample.general) as [_ H].
  destruct H as (note & H & _); [reflexivity | discriminate |].
  by exists note.
Defined.

(** X17.  [addMention] throws exactly for a role mention whose guild id is
    not empty and whose guild is not in the guild store.  Otherwise it
    gives a span with the key "<kind>-<id>"; the name shown is never empty:
    it is "@" or "#" followed by the stored name or, when the store has no
    entry or an empty name, by "unknown-user", "unknown-channel" or
    "unknown-role"; only a role mention without a guild id has no name. *)
Theorem addMention_name h id kind guildId :
  (addMention h id kind guildId = Throw ↔
   kind = KRole ∧
   ∃ c g, guildId = Some (c :: g) ∧ getGuild h (c :: g) = None) ∧
  ∀ e, addMention h id kind guildId = Ok e →
    ∃ name,
      e = Span (kind_name kind ++ str "-" ++ id) name ∧
      (∀ s, name = Some s → 2 ≤ length s) ∧
      (name = None → kind = KRole ∧ truthy guildId = false) ∧
      (kind = KUser → getUser h id = None →
       name = Some (str "@unknown-user")).
Proof.
  assert (Hor : ∀ o d, d ≠ [] → 1 ≤ length (or_else o d)).
  { intros [[|c s]|] [|x d]; simpl; intros; try done; lia. }
  assert (Hname : ∀ c o d s,
            d ≠ [] → Some (c :: or_else o d) = Some s → 2 ≤ length s).
  { intros c o d s Hd [= <-]. specialize (Hor o d Hd). simpl. lia. }
  unfold addMention. split.
  - destruct kind; cbn [mbind result_bind];
      try (split; [done|by intros [? _]]).
    destruct guildId as [[|c g]|]; cbn [mbind result_bind];
      try (split; [done|by intros (_ & ? & ? & ? & _)]).
    destruct (getGuild h (c :: g)) eqn:G; cbn [mbind result_bind deref].
    + split; [done|]. intros (_ & c' & g' & [= <- <-] & ?). congruence.
    + split; [|done]. intros _. split; [done|]. by exists c, g.
  - intros e. destruct kind; cbn [mbind result_bind].
    + intros [= <-]. eexists. split; [done|]. split_and!; try done.
      * intros s Hs. by eapply Hname; [|exact Hs].
      * by intros _ ->.
    + intros [= <-]. eexists. split; [done|]. split_and!; try done.
      intros s Hs. by eapply Hname; [|exact Hs].
    + destruct guildId as [[|c g]|]; cbn [mbind result_bind];
        try (intros [= <-]; eexists; split; [done|]; by split_and!).
      destruct (getGuild h (c :: g)) as [guild|];
        cbn [mbind result_bind deref]; [|done].
      intros [= <-]. eexists. split; [done|]. split_and!; try done.
      intros s Hs. by eapply Hname; [|exact Hs].
Qed.

Lemma addMention_name_witness :
  ∃ name,
    addMention Sample.host (str "999999999999999999") KUser None
    = Ok (Span (str "user-999999999999999999") name) ∧
    name = Some (str "@unknown-user").
Proof.
  destruct (addMention_name Sample.host (str "999999999999999999") KUser
              None) as [_ H].
  destruct (H (Span (str "user-999999999999999999")
                 (Some (str "@unknown-user"))))
    as (name & He & _ & _ & Hn); [vm_compute; reflexivity|].
  exists name. split; [|apply Hn; reflexivity].
  rewrite (Hn eq_refl eq_refl). vm_compute. reflexivity.
Defined.

(* ================================================================== *)
(** * The emote loop of the older revision *)
(* ================================================================== *)

Lemma scan_prefix_none re pre y : ∀ off,
  (∀ x s, x ∈ pre → exec_at re (x :: s) = None) →
  scan re (pre ++ y) off 0 = scan re y (off + length pre) 0.
Proof.
  induction pre as [|x pre IH]; intros off H; simpl.
  - by rewrite Nat.add_0_r.
  - rewrite H by left. rewrite IH by (intros; apply H; by right).
    f_equal. lia.
Qed.

Lemma scan_skip re x y : ∀ off,
  scan re (x ++ y) off (length x) = scan re y (off + length x) 0.
Proof.
  induction x as [|a x IH]; intros off; simpl.
  - rewrite Nat.add_0_r. by destruct y.
  - rewrite IH. f_equal. lia.
Qed.

Lemma replace_go_prefix_none re f pre y :
  (∀ x s, x ∈ pre → exec_at re (x :: s) = None) →
  replace_go re f (pre ++ y) 0 = pre ++ replace_go re f y 0.
Proof.
  induction pre as [|x pre IH]; intros H; simpl; [done|].
  rewrite H by left. f_equal. apply IH. intros. apply H. by right.
Qed.

Lemma match_one cls rest s :
  match_seq (Atom cls 1 (Some 1) :: rest) s
  = match s with
    | c :: s' => if cls c then cons 1 <$> match_seq rest s' else None
    | [] => None
    end.
Proof.
  destruct s as [|c s']; simpl; [done|].
  destruct (cls c); simpl; [|done].
  replace (run cls (Some 0) s') with 0
    by (destruct s'; simpl; [done|by destruct (cls _)]).
  simpl. rewrite drop_0. by destruct (match_seq rest s').
Qed.

Lemma literal_match t post :
  sum_list <$> match_seq ((λ c, Atom (N.eqb c) 1 (Some 1)) <$> t) (t ++ post)
  = Some (length t).
Proof.
  induction t as [|c t IH]; [done|].
  cbn [fmap list_fmap app]. rewrite match_one, N.eqb_refl.
  destruct (match_seq _ (t ++ post)) as [r|]; simpl in *; [|done].
  by injection IH as ->.
Qed.

Lemma exec_at_literal t s :
  m_len <$> exec_at (Legacy.literal t) s
  = sum_list <$> match_seq ((λ c, Atom (N.eqb c) 1 (Some 1)) <$> t) s.
Proof.
  unfold exec_at, Legacy.literal. cbn [exec_from].
  pose proof (alt_match_len 0
                (Alt ((λ c, Atom (N.eqb c) 1 (Some 1)) <$> t) (0, 0)) s) as H.
  by destruct (alt_match 0 _ s).
Qed.

Lemma exec_at_literal_other c t x s :
  x ≠ c → exec_at (Legacy.literal (c :: t)) (x :: s) = None.
Proof.
  intros Hx. pose proof (exec_at_literal (c :: t) (x :: s)) as H.
  cbn [fmap list_fmap] in H. rewrite match_one in H.
  replace (c =? x)%N with false in H
    by (symmetry; apply N.eqb_neq; congruence).
  by destruct (exec_at _ _).
Qed.

Lemma exec_at_literal_nil c t : exec_at (Legacy.literal (c :: t)) [] = None.
Proof.
  pose proof (exec_at_literal (c :: t) []) as H.
  cbn [fmap list_fmap] in H. rewrite match_one in H.
  by destruct (exec_at _ _).
Qed.

Lemma exec_at_EMOTE_other x s :
  x ≠ chr "<" → exec_at EMOTE_REGEX (x :: s) = None.
Proof.
  intros Hx. apply exec_from_other with (c := "<"%char).
  - apply EMOTE_REGEX_opened.
  - by apply N.eqb_neq.
Qed.

(** X18.  The emote loop of the older revision leaves a text without emote
    tokens unchanged, and it turns an emote token into [:name:] when the
    text before and the text after hold no [<]; there it agrees with
    [formatEmotes]. *)
Theorem legacy_replaceEmotes_single pre post animated name id :
  name ≠ [] → Forall (λ c, isWord c = true) name →
  id ≠ [] → Forall (λ c, isDigit c = true) id →
  Forall (λ x, x ≠ chr "<") pre → Forall (λ x, x ≠ chr "<") post →
  Legacy.replaceEmotes (pre ++ emote_token animated name id ++ post)
  = pre ++ str ":" ++ name ++ str ":" ++ post ∧
  Legacy.replaceEmotes pre = pre ∧
  formatEmotes (pre ++ emote_token animated name id ++ post)
  = Legacy.replaceEmotes (pre ++ emote_token animated name id ++ post).
Proof.
  intros Hn Hname Hi Hid Hpre Hpost.
  assert (Hnone : ∀ s, Forall (λ x, x ≠ chr "<") s →
                       scan EMOTE_REGEX s 0 0 = []).
  { intros s Hs. apply scan_none.
    apply (no_open_no_match "<");
      [apply EMOTE_REGEX_opened|apply EMOTE_REGEX_consuming|done]. }
  assert (Hfree : ∀ s, Forall (λ x, x ≠ chr "<") s → token_free s).
  { intros s Hs. apply token_free_no_match.
    apply (no_open_no_match "<");
      [apply EMOTE_REGEX_opened|apply EMOTE_REGEX_consuming|done]. }
  assert (Hleg : Legacy.replaceEmotes
                   (pre ++ emote_token animated name id ++ post)
                 = pre ++ str ":" ++ name ++ str ":" ++ post).
  { unfold Legacy.replaceEmotes, Legacy.match_all.
    set (T := emote_tail animated name id).
    rewrite emote_token_cons. fold T.
    assert (Hin : ∀ l : jsstring, Forall (λ x, x ≠ chr "<") l →
              ∀ x, x ∈ l → x ≠ chr "<")
      by (intros l Hl; by apply Forall_forall).
    rewrite scan_prefix_none
      by (intros x s Hx; apply exec_at_EMOTE_other, (Hin pre Hpre x Hx)).
    cbn [app scan].
    pose proof (exec_at_EMOTE (chr "<" :: T ++ post)) as Hm.
    unfold T in Hm. rewrite emote_match in Hm by done. fold T in Hm.
    destruct (exec_at EMOTE_REGEX (chr "<" :: T ++ post)) as [m|] eqn:E;
      [|done].
    assert (m_len m = S (length T)) as Hlen.
    { injection Hm as ->. unfold T. rewrite emote_tail_length.
      simpl. destruct animated; lia. }
    rewrite Hlen. replace (S (length T) - 1) with (length T) by lia.
    rewrite scan_skip.
    pose proof (Hnone post Hpost) as Hp.
    assert (∀ off, scan EMOTE_REGEX post off 0 = []) as Hp'.
    { intros off. apply scan_none.
      apply (no_open_no_match "<");
        [apply EMOTE_REGEX_opened|apply EMOTE_REGEX_consuming|done]. }
    rewrite Hp'. cbn [fmap list_fmap foldl fst snd].
    change (0 + length pre) with (length pre).
    rewrite Hlen, drop_app_length.
    replace (take (S (length T)) (chr "<" :: T ++ post))
      with (chr "<" :: T) by (simpl; by rewrite take_app_length).
    unfold T at 2. rewrite emote_name by done. simpl tmpl.
    unfold replace_all.
    rewrite replace_go_prefix_none
      by (intros x s Hx; apply exec_at_literal_other, (Hin pre Hpre x Hx)).
    f_equal. cbn [replace_go].
    pose proof (exec_at_literal (chr "<" :: T) (chr "<" :: T ++ post)) as HL.
    pose proof (literal_match (chr "<" :: T) post) as HM.
    rewrite <- app_comm_cons in HM. rewrite HM in HL.
    destruct (exec_at (Legacy.literal (chr "<" :: T)) _) as [ml|]; [|done].
    injection HL as ->. cbn [length].
    rewrite <- !app_assoc. do 3 f_equal.
    rewrite (replace_go_skip _ _ T post).
    pose proof (replace_go_prefix_none (Legacy.literal (chr "<" :: T))
                  (λ _, str ":" ++ name ++ str ":") post []) as R.
    rewrite app_nil_r in R. rewrite R.
    + cbn [replace_go]. rewrite exec_at_literal_nil. apply app_nil_r.
    + intros x s Hx. apply exec_at_literal_other, (Hin _ Hpost x Hx). }
  split_and!; [done| |].
  - unfold Legacy.replaceEmotes, Legacy.match_all. by rewrite Hnone.
  - rewrite Hleg, formatEmotes_token by done.
    by rewrite !formatEmotes_token_free by (by apply Hfree).
Qed.

Lemma legacy_replaceEmotes_single_witness :
  Legacy.replaceEmotes (str "see <:party_1:42>!") = str "see :party_1:!".
Proof.
  destruct (legacy_replaceEmotes_single (str "see ") (str "!") false
              (str "party_1") (str "42")) as [H _];
    [discriminate | repeat constructor | discriminate | repeat constructor
    | repeat constructor; discriminate | repeat constructor; discriminate |].
  exact H.
Defined.

Lemma token_free_short s :
  length s ≤ 3 →
  (∀ k, k < 4 → exec_at EMOTE_REGEX (drop k s) = None) →
  token_free s.
Proof.
  intros Hs H. apply token_free_no_match. intros k.
  destruct (decide (k < 4)) as [Hk|Hk]; [by apply H|].
  replace (drop k s) with (drop 3 s) by (by rewrite !drop_ge by lia).
  apply H. lia.
Qed.

(** C9.  The emote loop of the older revision rewrites text that is no
    emote token.  In the body "<<:x:1>5> <:x:5>" the tokens are "<:x:1>"
    and the last "<:x:5>", and the text around them, "<" and "5> ", holds
    none.  The loop turns "<:x:1>" into ":x:" and then rewrites every
    "<:x:5>" of the body it has got, also the one its first step made of
    "<", ":x:" and "5>": the toast reads ":x: :x:" where the tokens alone
    rewritten give "<:x:5> :x:", which is what the current revision
    shows. *)
Theorem legacy_emotes_rewrite_other_text :
  Sample.nested_emotes
  = str "<" ++ emote_token false (str "x") (str "1") ++ str "5> "
    ++ emote_token false (str "x") (str "5") ∧
  token_free (str "<") ∧ token_free (str "5> ") ∧
  (∃ n, Legacy.MESSAGE_CREATE Sample.host Sample.cfg Sample.st
          Case.nested_message = Ok (Some n) ∧
        body n = str ":x: :x:") ∧
  str ":x: :x:" ≠ str "<" ++ str ":x:" ++ str "5> " ++ str ":x:" ∧
  (∃ n, MESSAGE_CREATE Sample.host Sample.cfg Sample.st
          Case.nested_message = Ok (Some n) ∧
        body n = str "<" ++ str ":x:" ++ str "5> " ++ str ":x:").
Proof.
  split; [vm_compute; reflexivity|].
  split.
  { apply token_free_short; [vm_compute; lia|]. intros k Hk.
    do 4 (destruct k as [|k]; [vm_compute; reflexivity|]). lia. }
  split.
  { apply token_free_short; [vm_compute; lia|]. intros k Hk.
    do 4 (destruct k as [|k]; [vm_compute; reflexivity|]). lia. }
  split; [eexists; split; vm_compute; reflexivity|].
  split; [vm_compute; discriminate|].
  eexists; split; vm_compute; reflexivity.
Qed.

(* ================================================================== *)
(** * The settings lists at work *)
(* ================================================================== *)

(** X19.  A user whose id is written in the "ignore users" setting (ids
    separated by ", ") never gets a toast: after [start], neither revision
    of [MESSAGE_CREATE] shows a message of that author, and
    [RELATIONSHIP_ADD] returns without a toast for that user. *)
Theorem ignored_setting_respected h cfg ids m type n :
  ids ≠ [] → Forall clean_id ids →
  s_ignoreUsers cfg = join (str ", ") ids →
  user_id (author m) ∈ ids →
  MESSAGE_CREATE h cfg (start cfg) m ≠ Ok (Some n) ∧
  Legacy.MESSAGE_CREATE h cfg (start cfg) m ≠ Ok (Some n) ∧
  RELATIONSHIP_ADD h cfg (start cfg) (author m) type = Ok None ∧
  Legacy.RELATIONSHIP_ADD h cfg (start cfg) (author m) type = Ok None.
Proof.
  intros Hne Hall Hs Hin.
  assert (Hi : array_includes (ignoredUsers (start cfg)) (user_id (author m))
               = true).
  { apply array_includes_elem. unfold start. simpl.
    by rewrite Hs, stringToList_join_ids. }
  split_and!.
  - intros (ch & _ & _ & G2 & _)%MESSAGE_CREATE_inv.
    rewrite Hi, orb_true_r in G2. done.
  - unfold Legacy.MESSAGE_CREATE. rewrite Hi.
    destruct (_ && _); [done|].
    destruct (getChannel h (msg_channel_id m)) as [ch|]; simpl; [|done].
    destruct (truthy (guild_id ch)); [done|].
    by rewrite !orb_true_r.
  - unfold RELATIONSHIP_ADD. by rewrite Hi.
  - unfold Legacy.RELATIONSHIP_ADD. by rewrite Hi.
Qed.

Lemma ignored_setting_respected_witness :
  RELATIONSHIP_ADD Sample.host Case.cfg_ignore (start Case.cfg_ignore)
    Sample.bob FRIEND = Ok None.
Proof.
  destruct (ignored_setting_respected Sample.host Case.cfg_ignore
              [user_id Sample.alice; user_id Sample.bob]
              (Sample.message Sample.bob Sample.dm (str "hi") []) FRIEND
              Case.toast)
    as (_ & _ & H & _);
    [discriminate | repeat constructor; discriminate | reflexivity
    | right; left |].
  exact H.
Defined.

(** X20.  A guild channel whose id is written in the "notify for" setting
    is always shown: after [start], [handleGuildMessage] shows the toast of
    an ordinary message in that channel whatever the notification level
    and the mute state are. *)
Theorem notify_setting_respected h cfg ids m ch :
  ids ≠ [] → Forall clean_id ids →
  s_notifyFor cfg = join (str ", ") ids →
  msg_channel_id m ∈ ids →
  getChannel h (msg_channel_id m) = Some ch →
  guild_known h ch →
  msg_type m ≠ CHANNEL_RECIPIENT_ADD →
  msg_type m ≠ CHANNEL_RECIPIENT_REMOVE →
  ∃ n, handleGuildMessage h cfg (start cfg) m = Ok (Some n).
Proof.
  intros Hne Hall Hs Hin Hch Hg Ha Hr.
  assert (Hi : array_includes (notifyFor (start cfg)) (msg_channel_id m)
               = true).
  { apply array_includes_elem. unfold start. simpl.
    by rewrite Hs, stringToList_join_ids. }
  unfold handleGuildMessage. rewrite Hch, Hi. simpl.
  destruct (buildNotificationData_ok h m ch
              (SwitchChannels (guild_id ch) (channel_id ch)) Ha Hr Hg)
    as [b ->].
  simpl. eauto.
Qed.

Lemma notify_setting_respected_witness :
  ∃ n, handleGuildMessage Sample.host Sample.cfg (start Sample.cfg)
         (Sample.message Sample.alice Sample.general (str "hello") [])
       = Ok (Some n).
Proof.
  apply (notify_setting_respected Sample.host Sample.cfg
           [channel_id Sample.general] _ Sample.general);
    [discriminate | repeat constructor; discriminate | reflexivity
    | left | reflexivity | intros g _ _; by eexists
    | discriminate | discriminate].
Defined.

(* ================================================================== *)
(** * The two mention splits *)
(* ================================================================== *)

(** X21.  For a message that carries mentions, the rich body of the older
    revision is the rich body of [parseMentions] without its last text
    segment, if any: [parseMentions] returns it followed by at most one
    text. *)
Theorem legacy_rich_body_prefix h m body ch els :
  mentions m ≠ [] ∨ mentionRoles m ≠ [] →
  Legacy.replaceMentions h m body ch = Ok els →
  ∃ tail,
    parseMentions h body ch = Ok (els ++ tail) ∧
    (tail = [] ∨ ∃ t, t ≠ [] ∧ tail = [Text t]) ∧
    texts (els ++ tail) = removeMentions body.
Proof.
  intros Hm. unfold Legacy.replaceMentions, parseMentions.
  replace ((0 <? length (mentions m)) || (0 <? length (mentionRoles m)))
    with true
    by (destruct Hm as [Hm|Hm]; [destruct (mentions m)|
        destruct (mentionRoles m)]; try done; by rewrite ?orb_true_r).
  destruct (mention_loop _ _ _ _ _ _) as [[els' li]|] eqn:L; simpl; [|done].
  intros [= <-].
  apply (mention_loop_texts h ch body USER_MENTION_REGEX
           USER_MENTION_REGEX_consuming body [] 0) in L;
    [|done|lia|simpl; lia|lia].
  simpl in L. unfold removeMentions, replace_all. rewrite <- L.
  destruct (li <? length body) eqn:E.
  - apply Nat.ltb_lt in E. exists [Text (slice_from body li)].
    split_and!; [done| |].
    + right. eexists. split; [|done]. unfold slice_from.
      intros D. apply (f_equal length) in D. rewrite length_drop in D.
      simpl in D. lia.
    + by rewrite texts_app; simpl; rewrite app_nil_r.
  - apply Nat.ltb_ge in E. exists []. rewrite app_nil_r.
    split_and!; [done|by left|]. by rewrite drop_ge, app_nil_r.
Qed.

Lemma legacy_rich_body_prefix_witness :
  ∃ els tail,
    Legacy.replaceMentions Sample.host Sample.long_message
      Sample.mention_then_text Sample.general = Ok els ∧
    parseMentions Sample.host Sample.mention_then_text Sample.general
    = Ok (els ++ tail) ∧
    texts (els ++ tail) = str " hi".
Proof.
  assert (Hm : mentions Sample.long_message ≠ [])
    by (vm_compute; discriminate).
  destruct (Legacy.replaceMentions Sample.host Sample.long_message
              Sample.mention_then_text Sample.general) as [els|] eqn:E.
  - destruct (legacy_rich_body_prefix _ _ _ _ els (or_introl Hm) E)
      as (tail & Hp & _ & Ht).
    exists els, tail. split_and!; [done|exact Hp|].
    rewrite Ht. vm_compute. reflexivity.
  - vm_compute in E. discriminate E.
Defined.

(* ================================================================== *)
(** * The ids of the mentions *)
(* ================================================================== *)

Lemma run_cap cls k s : run cls (Some k) s ≤ k.
Proof.
  revert k. induction s as [|c s IH]; intros k; simpl; [lia|].
  destruct (cls c); [|lia]. destruct k as [|k]; [lia|].
  specialize (IH k). lia.
Qed.

Lemma match_rep_inv cls lo hi rest s cs :
  match_seq (rep cls lo hi :: rest) s = Some cs →
  ∃ j r, cs = j :: r ∧ lo ≤ j ≤ hi ∧
         Forall (λ c, cls c = true) (take j s) ∧ length (take j s) = j ∧
         match_seq rest (drop j s) = Some r.
Proof.
  simpl. intros H. apply backtrack_Some in H as (j & r & -> & [Hlo Hj] & Hc).
  pose proof (run_cap cls hi s) as Hcap.
  assert (Hhi : j ≤ hi) by lia.
  apply run_take in Hj as [Hall Hlen].
  exists j, r. split_and!; done.
Qed.

Lemma digits_inv t r :
  match_seq [rep isDigit 17 20; lit ">"] t = Some r →
  ∃ j r', r = j :: r' ∧ snowflake (take j t).
Proof.
  intros (j & r' & -> & Hj & Hall & Hlen & _)%match_rep_inv.
  exists j, r'. split; [done|]. split; [lia|done].
Qed.

Lemma lit_inv a rest s cs :
  match_seq (lit a :: rest) s = Some cs →
  ∃ s' r, s = chr a :: s' ∧ cs = 1 :: r ∧ match_seq rest s' = Some r.
Proof.
  rewrite match_lit. destruct s as [|c s']; [done|].
  destruct (is_char a c) eqn:E; [|done]. apply is_char_true in E as ->.
  destruct (match_seq rest s') as [r|] eqn:M; [|done].
  simpl. intros [= <-].
  by exists s', r.
Qed.

Lemma exec_at_mention s m :
  exec_at USER_MENTION_REGEX s = Some m →
  m_alt m < 3 ∧ snowflake (m_group m).
Proof.
  unfold exec_at, USER_MENTION_REGEX. cbn [exec_from].
  unfold alt_match. cbn [alt_atoms alt_group fst snd].
  destruct (match_seq [lit "<"; lit "@"; opt "!"; rep isDigit 17 20; lit ">"]
              s) as [cs|] eqn:M0; cbn [mbind option_bind].
  { intros [= <-]. cbn [m_alt m_group]. split; [lia|].
    apply lit_inv in M0 as (s1 & r1 & -> & -> & M0).
    apply lit_inv in M0 as (s2 & r2 & -> & -> & M0).
    rewrite match_opt in M0.
    assert (∃ b t r3, r2 = b :: r3 ∧ drop (2 + b) (chr "<" :: chr "@" :: s2)
                      = t ∧
              match_seq [rep isDigit 17 20; lit ">"] t = Some r3)
      as (b & t & r3 & -> & Ht & M).
    { destruct s2 as [|c2 s3].
      - destruct (match_seq _ []) as [r3|] eqn:M; [|done].
        injection M0 as <-. by exists 0, [], r3.
      - destruct (is_char "!" c2).
        + destruct (match_seq _ s3) as [r3|] eqn:M.
          * injection M0 as <-. by exists 1, s3, r3.
          * destruct (match_seq _ (c2 :: s3)) as [r3|] eqn:M'; [|done].
            injection M0 as <-. by exists 0, (c2 :: s3), r3.
        + destruct (match_seq _ (c2 :: s3)) as [r3|] eqn:M'; [|done].
          injection M0 as <-. by exists 0, (c2 :: s3), r3. }
    apply digits_inv in M as (j & r' & -> & Hsnow).
    replace (sum_list (take 1 (drop 3 (1 :: 1 :: b :: j :: r')))) with j
      by (simpl; rewrite ?take_0; simpl; unfold id; lia).
    replace (sum_list (take 3 (1 :: 1 :: b :: j :: r'))) with (2 + b)
      by (simpl; rewrite ?take_0; simpl; unfold id; lia).
    by rewrite Ht. }
  destruct (match_seq [lit "<"; lit "#"; rep isDigit 17 20; lit ">"] s)
    as [cs|] eqn:M1; cbn [mbind option_bind].
  { intros [= <-]. cbn [m_alt m_group]. split; [lia|].
    apply lit_inv in M1 as (s1 & r1 & -> & -> & M1).
    apply lit_inv in M1 as (s2 & r2 & -> & -> & M1).
    apply digits_inv in M1 as (j & r' & -> & Hsnow).
    replace (sum_list (take 1 (drop 2 (1 :: 1 :: j :: r')))) with j
      by (simpl; rewrite ?take_0; simpl; unfold id; lia).
    exact Hsnow. }
  destruct (match_seq [lit "<"; lit "@"; lit "&"; rep isDigit 17 20; lit ">"]
              s) as [cs|] eqn:M2; cbn [mbind option_bind]; [|done].
  intros [= <-]. cbn [m_alt m_group]. split; [lia|].
  apply lit_inv in M2 as (s1 & r1 & -> & -> & M2).
  apply lit_inv in M2 as (s2 & r2 & -> & -> & M2).
  apply lit_inv in M2 as (s3 & r3 & -> & -> & M2).
  apply digits_inv in M2 as (j & r' & -> & Hsnow).
  replace (sum_list (take 1 (drop 3 (1 :: 1 :: 1 :: j :: r')))) with j
    by (simpl; rewrite ?take_0; simpl; unfold id; lia).
  exact Hsnow.
Qed.

Lemma scan_Forall re (P : rmatch → Prop) :
  (∀ s m, exec_at re s = Some m → P m) →
  ∀ s off k, Forall (λ om, P om.2) (scan re s off k).
Proof.
  intros HP. induction s as [|c s IH]; intros off k; simpl.
  - destruct k; [|constructor].
    destruct (exec_at re []) as [m|] eqn:E; [|constructor].
    repeat constructor. by eapply HP.
  - destruct k as [|k]; [|apply IH].
    destruct (exec_at re (c :: s)) as [m|] eqn:E; [|apply IH].
    constructor; [by eapply HP|apply IH].
Qed.

Lemma addMention_key h id kind g e :
  addMention h id kind g = Ok e →
  ∃ name, e = Span (kind_name kind ++ str "-" ++ id) name.
Proof.
  unfold addMention.
  destruct (match kind with KUser => _ | _ => _ end) as [name|];
    cbn [mbind result_bind]; [|done].
  intros [= <-]. by exists name.
Qed.

Lemma mention_for_span h ch m mo :
  m_alt m < 3 ∧ snowflake (m_group m) →
  mention_for h ch m = Ok mo → Forall mention_span (option_list mo).
Proof.
  intros [Halt Hsnow]. unfold mention_for, group.
  assert (Ht : truthy (Some (m_group m)) = true).
  { destruct Hsnow as [[Hl _] _]. destruct (m_group m); simpl in *; [lia|done]. }
  assert (Hk : ∀ kind g r,
            Some <$> addMention h (m_group m) kind g = Ok r →
            Forall mention_span (option_list r)).
  { intros kind g r. destruct (addMention _ _ _ _) as [e|] eqn:A; [|done].
    intros [= <-]. apply addMention_key in A as [name ->].
    repeat constructor. by exists kind, (m_group m). }
  destruct (m_alt m) as [|[|[|a]]]; [..|lia]; cbn [Nat.eqb];
    rewrite ?Ht; cbn [truthy tmpl default]; apply Hk.
Qed.

Lemma mention_loop_spans h body ch ms : ∀ els li r,
  Forall (λ om, m_alt om.2 < 3 ∧ snowflake (m_group om.2)) ms →
  Forall mention_span els →
  mention_loop h body ch ms els li = Ok r →
  Forall mention_span r.1.
Proof.
  induction ms as [|[off m] ms IH]; intros els li r Hms Hels; simpl.
  - by intros [= <-].
  - apply Forall_cons in Hms as [Hm Hms].
    destruct (mention_for h ch m) as [mo|] eqn:F; simpl; [|done].
    apply IH; [done|]. apply Forall_app. split.
    + apply Forall_app. by split; [|repeat constructor].
    + by eapply mention_for_span.
Qed.

(** X22.  Every mention element of a rich body, in either revision, has a
    key made of the kind of the mention ("user", "channel" or "role"), a
    dash and the id, and the id is a string of 17 to 20 digits. *)
Theorem rich_body_spans h m body ch els :
  parseMentions h body ch = Ok els
  ∨ Legacy.replaceMentions h m body ch = Ok els →
  Forall mention_span els.
Proof.
  pose proof (scan_Forall USER_MENTION_REGEX _ exec_at_mention body 0 0)
    as Hscan.
  unfold parseMentions, Legacy.replaceMentions. intros [H|H].
  - destruct (mention_loop _ _ _ _ _ _) as [[els' li]|] eqn:L; simpl in H;
      [|done].
    injection H as <-.
    apply mention_loop_spans in L; [|done|constructor]. simpl in L.
    destruct (li <? length body); [|done].
    apply Forall_app. by split; [|repeat constructor].
  - destruct (_ || _); [|injection H as <-; constructor].
    destruct (mention_loop _ _ _ _ _ _) as [[els' li]|] eqn:L; simpl in H;
      [|done].
    injection H as <-.
    by apply mention_loop_spans in L; [|done|constructor].
Qed.

Lemma rich_body_spans_witness :
  ∃ els,
    parseMentions Sample.host Sample.mention_then_text Sample.general
    = Ok els ∧ Forall mention_span els.
Proof.
  eexists.
  assert (H1 : ∀ a b : Prop, a → (a → b) → a ∧ b)
    by (intros a b Ha Hb; auto).
  apply H1; [vm_compute; reflexivity|]. intros E.
  apply (rich_body_spans Sample.host Sample.own_message
           Sample.mention_then_text Sample.general).
  left. exact E.
Defined.
